(** * Cybersecurity incident analysis: the numeric steps of [main.py]

    [main.py] is a linear pandas script: it loads a CSV file into one
    table, fills the missing values of three numeric columns with the
    column medians, counts the Tukey-fence outliers of each of these
    columns, draws charts and prints a fixed block of conclusions.

    The development embeds the load, clean, outlier and summary cells.
    The pandas calls the script makes are written out as functions on an
    explicit table; the script's own statements are programs of a small
    state-and-exception monad over the table bound to [df] and the text
    written to standard output.

    Numbers: a float64 is an IEEE 754 binary64 value.  Sums, differences,
    products and quotients are the correctly rounded ones of the standard
    library's [SpecFloat], with overflow to an infinity and NaN where the
    standard has them; comparisons are the IEEE ones.  A numeric cell of
    a table holds a float64: an integer column is read through the
    float64 values of its entries, which is exact below 2^53.

    Library behaviour is that of pandas 2 on numpy: a reduction over a
    column that holds text raises [TypeError]; the median is the middle
    value of the sorted observed values, or the half-sum of the two
    middle ones; a quantile interpolates linearly between two
    neighbouring order statistics with numpy's two-sided formula.  For
    an odd number of observed values pandas may, depending on the size
    and layout of the table, compute the half-sum of the middle value
    with itself instead of returning it; the two differ only when that
    sum overflows, that is for a middle value of magnitude 2^1023 or
    more, and the model returns the middle value. *)

From Stdlib Require Import String Ascii Bool Arith Lia ZArith List.
From Stdlib Require Import QArith Qround DecimalString SpecFloat.
From Stdlib Require Import Sorting.Sorted Sorting.Permutation.
Import ListNotations.

Local Open Scope string_scope.
Local Open Scope list_scope.

(** ** Values *)

(** The format: 53 bits of precision, exponents below 1024. *)
Definition prec : Z := 53.
Definition emax : Z := 1024.

(** A double that is not NaN: a signed zero, a signed infinity, or the
    finite number [(-1)^s * m * 2^e]. *)
Inductive double :=
| Dzero (s : bool)
| Dinf (s : bool)
| Dfin (s : bool) (m : positive) (e : Z).

(** A float64: [None] is NaN. *)
Definition float64 := option double.
Definition NaN : float64 := None.

(** A cell of a table: missing, a number, or text (object dtype). *)
Inductive cell :=
| NA
| Num (x : double)
| Str (s : string).

(** A column of cells, positions [0 .. n-1] under a RangeIndex. *)
Definition Series := list cell.

(** A DataFrame: the length of its RangeIndex and its columns in order. *)
Record DataFrame := mkDataFrame {
  index : nat;
  columns : list (string * Series)
}.

(** The result of a column-wise reduction: a value per column label. *)
Definition Reduction := list (string * float64).

Inductive exn :=
| FileNotFoundError
| EmptyDataError
| ParserError
| KeyError (missing : list string)
| TypeError
| ValueError.

Inductive result (A : Type) :=
| Ok (a : A)
| Raise (e : exn).
Arguments Ok {A} a.
Arguments Raise {A} e.

Definition rbind {A B} (r : result A) (k : A -> result B) : result B :=
  match r with
  | Ok a => k a
  | Raise e => Raise e
  end.

Fixpoint rmap {A B} (f : A -> result B) (l : list A) : result (list B) :=
  match l with
  | [] => Ok []
  | a :: l' =>
      rbind (f a) (fun b => rbind (rmap f l') (fun bs => Ok (b :: bs)))
  end.

(** ** float64 arithmetic and comparison *)

Definition to_spec (a : float64) : spec_float :=
  match a with
  | None => S754_nan
  | Some (Dzero s) => S754_zero s
  | Some (Dinf s) => S754_infinity s
  | Some (Dfin s m e) => S754_finite s m e
  end.

Definition of_spec (x : spec_float) : float64 :=
  match x with
  | S754_nan => NaN
  | S754_zero s => Some (Dzero s)
  | S754_infinity s => Some (Dinf s)
  | S754_finite s m e => Some (Dfin s m e)
  end.

(** [a + b], [a - b], [a * b] and [a / b], rounded to nearest, ties to
    even. *)
Definition f_add (a b : float64) : float64 :=
  of_spec (SFadd prec emax (to_spec a) (to_spec b)).

Definition f_sub (a b : float64) : float64 :=
  of_spec (SFsub prec emax (to_spec a) (to_spec b)).

Definition f_mul (a b : float64) : float64 :=
  of_spec (SFmul prec emax (to_spec a) (to_spec b)).

Definition f_div (a b : float64) : float64 :=
  of_spec (SFdiv prec emax (to_spec a) (to_spec b)).

(** [a < b], [a > b], [a <= b] and [a >= b] on floats: false as soon as
    one side is NaN. *)
Definition f_lt (a b : float64) : bool := SFltb (to_spec a) (to_spec b).

Definition f_gt (a b : float64) : bool := f_lt b a.

Definition f_le (a b : float64) : bool := SFleb (to_spec a) (to_spec b).

Definition f_ge (a b : float64) : bool := f_le b a.

(** The order of two doubles; the two zeros are equal. *)
Definition d_compare (x y : double) : comparison :=
  match SFcompare (to_spec (Some x)) (to_spec (Some y)) with
  | Some c => c
  | None => Eq
  end.

Definition d_leb (x y : double) : bool :=
  match d_compare x y with Gt => false | _ => true end.

Definition d_ltb (x y : double) : bool :=
  match d_compare x y with Lt => true | _ => false end.

Definition d_eqb (x y : double) : bool :=
  match d_compare x y with Eq => true | _ => false end.

(** The float64 nearest to an integer, and to a fraction whose numerator
    and denominator are below 2^53: the value of a literal such as
    [0.25] or [1.5]. *)
Definition of_Z (z : Z) : float64 :=
  of_spec (binary_normalize prec emax z 0 false).

Definition of_Q (q : Q) : float64 :=
  f_div (of_Z (Qnum q)) (of_Z (Zpos (Qden q))).

Definition dbl (z : Z) : double :=
  match of_Z z with
  | Some x => x
  | None => Dzero false
  end.

Definition decimal (n : Z) (d : positive) : double :=
  match of_Q (n # d) with
  | Some x => x
  | None => Dzero false
  end.

(** The rational a finite double stands for (0 for an infinity). *)
Definition d_finite (x : double) : bool :=
  match x with
  | Dinf _ => false
  | _ => true
  end.

Definition d_value (x : double) : Q :=
  match x with
  | Dfin s m e =>
      let v := (inject_Z (Zpos m) * 2 ^ e)%Q in
      if s then (- v)%Q else v
  | _ => 0%Q
  end.

(** [floor] of a finite double that is not negative, as an index. *)
Definition d_floor (a : float64) : nat :=
  match a with
  | Some x => Z.to_nat (Qfloor (d_value x))
  | None => 0%nat
  end.

(** ** Columns of a table *)

Fixpoint get_column (k : string) (cols : list (string * Series))
  : option Series :=
  match cols with
  | [] => None
  | (k', s) :: rest => if String.eqb k k' then Some s else get_column k rest
  end.

(** Assigning a column: replaced in place when the label exists,
    appended otherwise. *)
Fixpoint set_column (k : string) (s : Series) (cols : list (string * Series))
  : list (string * Series) :=
  match cols with
  | [] => [(k, s)]
  | (k', s') :: rest =>
      if String.eqb k k' then (k, s) :: rest
      else (k', s') :: set_column k s rest
  end.

Definition has_column (k : string) (d : DataFrame) : bool :=
  match get_column k (columns d) with
  | Some _ => true
  | None => false
  end.

(** [df[col]]: one column as a Series. *)
Definition getitem (col : string) (d : DataFrame) : result Series :=
  match get_column col (columns d) with
  | Some s => Ok s
  | None => Raise (KeyError [col])
  end.

Fixpoint select (keys : list string) (cols : list (string * Series))
  : option (list (string * Series)) :=
  match keys with
  | [] => Some []
  | k :: ks =>
      match get_column k cols, select ks cols with
      | Some s, Some r => Some ((k, s) :: r)
      | _, _ => None
      end
  end.

(** [df[keys]]: the sub-table of the listed columns, in the order of the
    list, on the same index. *)
Definition getitem_list (keys : list string) (d : DataFrame)
  : result DataFrame :=
  match select keys (columns d) with
  | Some cs => Ok (mkDataFrame (index d) cs)
  | None => Raise (KeyError (filter (fun k => negb (has_column k d)) keys))
  end.

(** Aligning a column on a RangeIndex of length [n]: the first [n]
    positions, NaN where the column has none. *)
Definition reindex (n : nat) (s : Series) : Series :=
  firstn n s ++ repeat NA (n - length s).

(** [df[k] = s] *)
Definition setitem (k : string) (s : Series) (d : DataFrame) : DataFrame :=
  mkDataFrame (index d) (set_column k (reindex (index d) s) (columns d)).

(** [df[keys] = value] with a table on the right: the listed labels are
    paired with the columns of [value] by position and assigned one
    after the other. *)
Definition setitem_list (keys : list string) (value : DataFrame)
  (d : DataFrame) : DataFrame :=
  fold_left (fun acc kv => setitem (fst kv) (snd (snd kv)) acc)
            (combine keys (columns value)) d.

(** ** Missing values *)

Definition isnull (c : cell) : bool :=
  match c with
  | NA => true
  | _ => false
  end.

(** [s.isnull().sum()] *)
Definition isnull_sum (s : Series) : nat :=
  length (filter isnull s).

(** The numeric view of a column; text makes a numeric reduction fail. *)
Definition to_float (c : cell) : result float64 :=
  match c with
  | NA => Ok NaN
  | Num x => Ok (Some x)
  | Str _ => Raise TypeError
  end.

Definition to_numeric (s : Series) : result (list float64) :=
  rmap to_float s.

(** The observed (non-NaN) values, in row order. *)
Fixpoint observed (xs : list float64) : list double :=
  match xs with
  | [] => []
  | Some x :: r => x :: observed r
  | None :: r => observed r
  end.

(** ** Order statistics *)

Fixpoint insert_sorted (x : double) (l : list double) : list double :=
  match l with
  | [] => [x]
  | y :: r => if d_leb x y then x :: y :: r else y :: insert_sorted x r
  end.

Fixpoint sort (l : list double) : list double :=
  match l with
  | [] => []
  | x :: r => insert_sorted x (sort r)
  end.

(** The mean of two values as numpy takes it: the sum, then the half. *)
Definition half_sum (a b : double) : float64 :=
  f_div (f_add (Some a) (Some b)) (of_Z 2).

(** Median of the observed values: the middle one of the sorted sample,
    or the mean of the two middle ones; NaN for an empty sample. *)
Definition nanmedian (xs : list float64) : float64 :=
  let v := sort (observed xs) in
  let n := length v in
  match v with
  | [] => NaN
  | x0 :: _ =>
      if Nat.odd n then Some (nth (n / 2) v x0)
      else half_sum (nth (n / 2 - 1) v x0) (nth (n / 2) v x0)
  end.

(** numpy's interpolation between [a] and [b] at [t]: from [a] upwards
    for [t] below one half, from [b] downwards otherwise. *)
Definition lerp (a b t : float64) : float64 :=
  let diff := f_sub b a in
  if f_ge t (of_Q (1 # 2)) then f_sub b (f_mul diff (f_sub (of_Z 1) t))
  else f_add a (f_mul diff t).

(** The position [(n-1)*q] of the quantile [q] among [n] sorted values.
    pandas hands numpy the percentage [q * 100], which numpy divides by
    100 again. *)
Definition virtual_index (q : Q) (n : nat) : float64 :=
  f_mul (of_Z (Z.of_nat (n - 1)))
        (f_div (f_mul (of_Q q) (of_Z 100)) (of_Z 100)).

(** The positions of the two order statistics numpy interpolates
    between, and the weight of the second: the neighbours of the
    virtual index, or the last value twice when the index reaches it
    (numpy then counts the weight from position [-1]).  Below the end
    the two positions are inside the sample; [Nat.min] keeps them there
    for every argument. *)
Definition at_end (q : Q) (n : nat) : bool :=
  f_ge (virtual_index q n) (of_Z (Z.of_nat (n - 1))).

Definition lower_index (q : Q) (n : nat) : nat :=
  if at_end q n then (n - 1)%nat
  else Nat.min (d_floor (virtual_index q n)) (n - 1).

Definition upper_index (q : Q) (n : nat) : nat :=
  if at_end q n then (n - 1)%nat
  else Nat.min (S (d_floor (virtual_index q n))) (n - 1).

Definition gamma (q : Q) (n : nat) : float64 :=
  if at_end q n then f_sub (virtual_index q n) (of_Z (-1))
  else f_sub (virtual_index q n)
             (of_Z (Z.of_nat (d_floor (virtual_index q n)))).

(** Quantile of the observed values with linear interpolation between
    the two order statistics around the position [(n-1)*q]; NaN for an
    empty sample. *)
Definition nanquantile (q : Q) (xs : list float64) : float64 :=
  let v := sort (observed xs) in
  let n := length v in
  match v with
  | [] => NaN
  | x0 :: _ =>
      lerp (Some (nth (lower_index q n) v x0))
           (Some (nth (upper_index q n) v x0))
           (gamma q n)
  end.

(** [s.quantile(q)]; [q] outside [0, 1] is refused. *)
Definition quantile (q : Q) (s : Series) : result float64 :=
  if Qle_bool 0 q && Qle_bool q 1
  then rbind (to_numeric s) (fun xs => Ok (nanquantile q xs))
  else Raise ValueError.

(** [d.median()]: the median of every column, NaN skipped. *)
Definition median (d : DataFrame) : result Reduction :=
  rmap (fun kc => rbind (to_numeric (snd kc))
                        (fun xs => Ok (fst kc, nanmedian xs)))
       (columns d).

(** Filling the missing cells of one column with a scalar; filling with
    NaN changes nothing. *)
Definition fillna_scalar (v : float64) (s : Series) : Series :=
  match v with
  | None => s
  | Some m => map (fun c => match c with NA => Num m | _ => c end) s
  end.

Definition fillna_step (acc : list (string * Series)) (kv : string * float64)
  : list (string * Series) :=
  match get_column (fst kv) acc with
  | None => acc
  | Some s => set_column (fst kv) (fillna_scalar (snd kv) s) acc
  end.

(** [d.fillna(value)] with a value per column label: every labelled
    value whose label is a column of [d] fills that column. *)
Definition fillna (d : DataFrame) (value : Reduction) : DataFrame :=
  mkDataFrame (index d) (fold_left fillna_step value (columns d)).

(** ** The script as a program over its table and its output *)

Record world := mkWorld {
  df : DataFrame;
  stdout : list string
}.

Definition M (A : Type) := world -> result A * world.

Definition ret {A} (a : A) : M A := fun w => (Ok a, w).

Definition bind {A B} (m : M A) (k : A -> M B) : M B :=
  fun w =>
    match m w with
    | (Ok a, w') => k a w'
    | (Raise e, w') => (Raise e, w')
    end.

Notation "x <- m ;; k" := (bind m (fun x => k))
  (at level 61, m at next level, right associativity).
Notation "m ;;; k" := (bind m (fun _ => k))
  (at level 61, right associativity).

(** A pandas call on values already computed: no access to [df]. *)
Definition lift {A} (r : result A) : M A := fun w => (r, w).

(** Reading through the name [df]. *)
Definition df_getitem (col : string) : M Series :=
  fun w => (getitem col (df w), w).

Definition df_getitem_list (keys : list string) : M DataFrame :=
  fun w => (getitem_list keys (df w), w).

(** [df[keys] = value]: the one statement that changes the table. *)
Definition df_setitem_list (keys : list string) (value : DataFrame) : M unit :=
  fun w => (Ok tt, mkWorld (setitem_list keys value (df w)) (stdout w)).

(** [str(n)] for a count. *)
Definition str (n : nat) : string := NilEmpty.string_of_uint (Nat.to_uint n).

(** [print(a, b, ...)]: the arguments separated by one space, one line. *)
Definition print (args : list string) : M unit :=
  fun w => (Ok tt, mkWorld (df w) (stdout w ++ [String.concat " " args])).

Fixpoint for_each {A} (l : list A) (body : A -> M unit) : M unit :=
  match l with
  | [] => ret tt
  | a :: l' => body a ;;; for_each l' body
  end.

(** What a run of [m] from [w] wrote to standard output. *)
Definition output_of {A} (m : M A) (w : world) : list string :=
  skipn (length (stdout w)) (stdout (snd (m w))).

(** *** Cell 2.1: missing values *)

Definition numeric_cols : list string :=
  [ "Financial Loss (in Million $)";
    "Number of Affected Users";
    "Incident Resolution Time (in Hours)" ].

(** [df[cols] = df[cols].fillna(df[cols].median())]: the receiver of
    [fillna] is evaluated first, then its argument, then the assignment
    takes place. *)
Definition impute (cols : list string) : M unit :=
  sub <- df_getitem_list cols ;;
  arg <- df_getitem_list cols ;;
  med <- lift (median arg) ;;
  df_setitem_list cols (fillna sub med).

Definition clean : M unit := impute numeric_cols.

(** *** Cell 2.2: outlier analysis *)

Definition series_lt (s : Series) (b : float64) : result (list bool) :=
  rbind (to_numeric s) (fun xs => Ok (map (fun x => f_lt x b) xs)).

Definition series_gt (s : Series) (b : float64) : result (list bool) :=
  rbind (to_numeric s) (fun xs => Ok (map (fun x => f_gt x b) xs)).

(** Element-wise [|] of two boolean columns on the same index. *)
Definition mask_or (a b : list bool) : list bool :=
  map (fun p => orb (fst p) (snd p)) (combine a b).

(** [.sum()] of a boolean column: the number of [True]. *)
Definition mask_sum (m : list bool) : nat :=
  fold_right (fun (b : bool) (n : nat) => if b then S n else n) 0%nat m.

Definition one_and_a_half : float64 := of_Q (3 # 2).

Definition outlier_body (col : string) : M unit :=
  s1 <- df_getitem col ;;
  Q1 <- lift (quantile (1 # 4) s1) ;;
  s2 <- df_getitem col ;;
  Q3 <- lift (quantile (3 # 4) s2) ;;
  let IQR := f_sub Q3 Q1 in
  s3 <- df_getitem col ;;
  below <- lift (series_lt s3 (f_sub Q1 (f_mul one_and_a_half IQR))) ;;
  s4 <- df_getitem col ;;
  above <- lift (series_gt s4 (f_add Q3 (f_mul one_and_a_half IQR))) ;;
  let outliers := mask_sum (mask_or below above) in
  print [col; "outliers detected:"; str outliers].

Definition outlier_loop : M unit := for_each numeric_cols outlier_body.

(** *** Cell 7: final conclusions *)

Definition conclusions : string :=
"
1. Cybersecurity incidents have increased steadily over time, indicating expanding digital attack surfaces.
2. Financial losses are highly skewed, with a small number of incidents causing extreme damage.
3. Certain attack types consistently result in higher median financial losses.
4. Financial loss is positively correlated with both the number of affected users and incident resolution time.
5. Faster incident detection and response are associated with reduced financial impact.
6. Extreme incidents (outliers) represent critical systemic risks and should not be excluded from analysis.
".

Definition print_conclusions : M unit := print [conclusions].

(** *** Cell 1: loading *)

Definition csv_path : string := "Global_Cybersecurity_Threats_2015-2024.csv".

(** A file system maps a path to the lines of the file, each split into
    its fields (line 0 is the header); blank lines are already dropped. *)
Definition filesystem := string -> option (list (list string)).

Section Loader.

(** pandas decides the type of a column from all of its fields at once
    (integers, floats, booleans, dates or text, with its own rules for
    missing-value markers and for numbers too large for the type) and
    converts every field accordingly.  This inference is taken as
    given: [infer_column] maps the fields of one column, [None] for a
    field a record does not have, to the column pandas builds. *)
Variable infer_column : list (option string) -> Series.

Fixpoint parse_columns (j : nat) (header : list string)
  (records : list (list string)) : list (string * Series) :=
  match header with
  | [] => []
  | name :: rest =>
      (name, infer_column (map (fun r => nth_error r j) records))
        :: parse_columns (S j) rest records
  end.

(** [pd.read_csv(path)].  A record shorter than the header is padded
    with missing fields.  A record longer than the header is reported
    as a parse error, and repeated header names are kept as they are:
    pandas turns the extra leading fields of a longer first record
    into row labels and renames repeated names, two cases the model
    leaves out. *)
Definition read_csv (fs : filesystem) (path : string) : result DataFrame :=
  match fs path with
  | None => Raise FileNotFoundError
  | Some [] => Raise EmptyDataError
  | Some (header :: records) =>
      if existsb (fun r => length header <? length r)%nat records
      then Raise ParserError
      else Ok (mkDataFrame (length records) (parse_columns 0 header records))
  end.

(** Cells 1 and 2.1 in sequence, from a fresh process. *)
Definition load_and_clean (fs : filesystem) : result world :=
  match read_csv fs csv_path with
  | Raise e => Raise e
  | Ok d =>
      match clean (mkWorld d []) with
      | (Ok _, w) => Ok w
      | (Raise e, _) => Raise e
      end
  end.

End Loader.

(** The position of a name in the header. *)
Fixpoint field_position (name : string) (header : list string) : option nat :=
  match header with
  | [] => None
  | h :: rest =>
      if String.eqb name h then Some 0%nat
      else option_map S (field_position name rest)
  end.

(** ** Well-formedness *)

Fixpoint nodupb (l : list string) : bool :=
  match l with
  | [] => true
  | x :: r => negb (existsb (String.eqb x) r) && nodupb r
  end.

(** The invariant of a table: distinct column labels, and every column
    as long as the index. *)
Definition wf_df (d : DataFrame) : bool :=
  nodupb (map fst (columns d))
  && forallb (fun kv => (length (snd kv) =? index d)%nat) (columns d).

Definition numeric_column (s : Series) : bool :=
  forallb (fun c => match c with Str _ => false | _ => true end) s.

(** Every listed column exists and holds numbers or missing values. *)
Definition numeric_present (keys : list string) (d : DataFrame) : bool :=
  forallb (fun k => match get_column k (columns d) with
                    | Some s => numeric_column s
                    | None => false
                    end) keys.

(** The column under a label ([[]] when there is none). *)
Definition column_of (k : string) (d : DataFrame) : Series :=
  match get_column k (columns d) with
  | Some s => s
  | None => []
  end.

(** The numeric reading of a column that holds no text. *)
Definition floats (s : Series) : list float64 :=
  map (fun c => match c with Num x => Some x | _ => NaN end) s.

(** The median of the observed values of a column. *)
Definition median_of (s : Series) : float64 := nanmedian (floats s).

Definition has_observed (s : Series) : bool :=
  existsb (fun c => match c with Num _ => true | _ => false end) s.


(** ** Order statistics in the words of the specification *)

(** How many values of a sample lie strictly below a given one, and how
    many at or below it. *)
Definition count_lt (x : double) (l : list double) : nat :=
  length (filter (fun y => d_ltb y x) l).

Definition count_le (x : double) (l : list double) : nat :=
  length (filter (fun y => d_leb y x) l).

(** [x] can stand at position [k], counted from 0, when the sample is
    put in ascending order: at most [k] values lie strictly below it and
    more than [k] at or below it. *)
Definition is_kth (k : nat) (l : list double) (x : double) : bool :=
  (count_lt x l <=? k)%nat && (k <? count_le x l)%nat.

Definition kth_smallest (k : nat) (l : list double) (x : double) : Prop :=
  In x l /\ is_kth k l x = true.

(** The median of a sample: NaN when it is empty, its middle value in
    ascending order when the count is odd, the half-sum of its two
    middle values, in double precision, when the count is even. *)
Definition is_median (l : list double) (m : float64) : Prop :=
  match l with
  | [] => m = NaN
  | _ :: _ =>
      exists a b,
        kth_smallest ((length l - 1) / 2) l a /\
        kth_smallest (length l / 2) l b /\
        m = if Nat.odd (length l) then Some b else half_sum a b
  end.

(** The half-sum of two values is regular when it is a number and is
    infinite only if one of the two values is: the sum neither
    overflows nor meets two opposite infinities. *)
Definition regular_half_sum (a b : double) : bool :=
  match half_sum a b with
  | None => false
  | Some m => d_finite m || negb (d_finite a && d_finite b)
  end.

(** The two middle values of a sample (the middle one twice for an odd
    count) have a regular half-sum. *)
Definition regular_median (l : list double) : bool :=
  forallb (fun a =>
    forallb (fun b =>
      implb (is_kth ((length l - 1) / 2) l a && is_kth (length l / 2) l b)
            (regular_half_sum a b)) l) l.

(** The quantile [q] of a sample: NaN when it is empty, otherwise the
    interpolation between the two values at the positions around
    [(n-1)*q] in ascending order. *)
Definition is_quantile (q : Q) (l : list double) (v : float64) : Prop :=
  match l with
  | [] => v = NaN
  | _ :: _ =>
      exists a b,
        kth_smallest (lower_index q (length l)) l a /\
        kth_smallest (upper_index q (length l)) l b /\
        v = lerp (Some a) (Some b) (gamma q (length l))
  end.

(** ** The outlier count in the words of the specification *)

(** The fences [Q1 - 1.5 * IQR] and [Q3 + 1.5 * IQR], [IQR = Q3 - Q1],
    every step in double precision. *)
Definition lower_fence (q1 q3 : float64) : float64 :=
  f_sub q1 (f_mul one_and_a_half (f_sub q3 q1)).

Definition upper_fence (q1 q3 : float64) : float64 :=
  f_add q3 (f_mul one_and_a_half (f_sub q3 q1)).

(** A value is an outlier when it lies strictly below the lower fence
    or strictly above the upper one. *)
Definition tukey_outlier (q1 q3 : float64) (v : double) : Prop :=
  f_lt (Some v) (lower_fence q1 q3) = true
  \/ f_lt (upper_fence q1 q3) (Some v) = true.

Definition tukey_outlier_dec (q1 q3 : float64) (v : double)
  : {tukey_outlier q1 q3 v} + {~ tukey_outlier q1 q3 v} :=
  match bool_dec (f_lt (Some v) (lower_fence q1 q3)) true with
  | left Hlo => left (or_introl Hlo)
  | right Hlo =>
      match bool_dec (f_lt (upper_fence q1 q3) (Some v)) true with
      | left Hhi => left (or_intror Hhi)
      | right Hhi =>
          right (fun H => match H with
                          | or_introl a => Hlo a
                          | or_intror b => Hhi b
                          end)
      end
  end.

Definition first_quartile (s : Series) : float64 := nanquantile (1 # 4) (floats s).
Definition third_quartile (s : Series) : float64 := nanquantile (3 # 4) (floats s).

Definition outlier_row (q1 q3 : float64) (c : cell) : bool :=
  match c with
  | Num v => if tukey_outlier_dec q1 q3 v then true else false
  | _ => false
  end.

(** The number of rows of a column whose value is an outlier with
    respect to the quartiles [q1] and [q3]. *)
Definition outlier_rows (q1 q3 : float64) (s : Series) : nat :=
  length (filter (outlier_row q1 q3) s).

(** The count with the quartiles of the column itself. *)
Definition quartile_count (s : Series) : nat :=
  outlier_rows (first_quartile s) (third_quartile s) s.

(** [n] is the number of rows of column [c] lying outside the fences
    drawn from the first and the third quartile of that column. *)
Definition tukey_count (d : DataFrame) (c : string) (n : nat) : Prop :=
  exists q1 q3,
    is_quantile (1 # 4) (observed (floats (column_of c d))) q1 /\
    is_quantile (3 # 4) (observed (floats (column_of c d))) q3 /\
    n = outlier_rows q1 q3 (column_of c d).

(** The line the outlier cell prints for a column and a count. *)
Definition outlier_line (col : string) (n : nat) : string :=
  col ++ " outliers detected: " ++ str n.

(** ** The outlier count in exact arithmetic *)

(** The same count read over the rationals: the cells stand for their
    exact values, the quartiles interpolate exactly and the fences are
    computed without rounding.  Meant for columns of finite numbers. *)
Fixpoint Qinsert (x : Q) (l : list Q) : list Q :=
  match l with
  | [] => [x]
  | y :: r => if Qle_bool x y then x :: y :: r else y :: Qinsert x r
  end.

Definition Qsort (l : list Q) : list Q := fold_right Qinsert [] l.

Definition Qlt_bool (x y : Q) : bool := negb (Qle_bool y x).

Definition exact_values (s : Series) : list Q :=
  flat_map (fun c => match c with Num x => [d_value x] | _ => [] end) s.

Definition exact_quantile (q : Q) (l : list Q) : Q :=
  let v := Qsort l in
  let n := length v in
  let h := (inject_Z (Z.of_nat (n - 1)) * q)%Q in
  let lo := Z.to_nat (Qfloor h) in
  let hi := Nat.min (lo + 1) (n - 1) in
  (nth lo v 0 + (nth hi v 0 - nth lo v 0) * (h - inject_Z (Qfloor h)))%Q.

Definition exact_outlier (q1 q3 v : Q) : bool :=
  Qlt_bool v (q1 - (3 # 2) * (q3 - q1))
  || Qlt_bool (q3 + (3 # 2) * (q3 - q1)) v.

Definition exact_outlier_rows (s : Series) : nat :=
  let l := exact_values s in
  length (filter (exact_outlier (exact_quantile (1 # 4) l)
                                (exact_quantile (3 # 4) l)) l).

(** ** The outlier cell as a function of the table *)

(** The boolean column the cell sums, for one column of the table. *)
Definition outlier_mask (s : Series) : result (list bool) :=
  rbind (quantile (1 # 4) s) (fun Q1 =>
  rbind (quantile (3 # 4) s) (fun Q3 =>
  let IQR := f_sub Q3 Q1 in
  rbind (series_lt s (f_sub Q1 (f_mul one_and_a_half IQR))) (fun below =>
  rbind (series_gt s (f_add Q3 (f_mul one_and_a_half IQR))) (fun above =>
  Ok (mask_or below above))))).

Definition outlier_count (s : Series) : result nat :=
  rbind (outlier_mask s) (fun m => Ok (mask_sum m)).

(** The outcome and the lines of the loop over [cols], read off the
    table alone. *)
Fixpoint loop_report (cols : list string) (d : DataFrame)
  : result unit * list string :=
  match cols with
  | [] => (Ok tt, [])
  | c :: rest =>
      match rbind (getitem c d) outlier_count with
      | Raise e => (Raise e, [])
      | Ok n =>
          (fst (loop_report rest d),
           String.concat " " [c; "outliers detected:"; str n]
             :: snd (loop_report rest d))
      end
  end.

(** ** Imputation of one column at a time *)

(** What the imputation does to one labelled column. *)
Definition impute_entry (keys : list string) (kv : string * Series)
  : string * Series :=
  if existsb (String.eqb (fst kv)) keys
  then (fst kv, fillna_scalar (median_of (snd kv)) (snd kv))
  else kv.


(** ** Sample data *)

Definition quartile_sample : Series :=
  [Num (dbl 1); Num (dbl 2); Num (dbl 3); Num (dbl 4); Num (dbl 5);
   Num (dbl 100)].

Definition gap_sample : Series :=
  [Num (dbl 10); NA; Num (dbl 30); NA; Num (dbl 50)].

Definition gap_filled : Series :=
  [Num (dbl 10); Num (dbl 30); Num (dbl 30); Num (dbl 30); Num (dbl 50)].

Definition sample_df : DataFrame :=
  mkDataFrame 5
    [ ("Attack Type", [Str "Phishing"; NA; Str "DDoS"; Str "Malware"; NA]);
      ("Financial Loss (in Million $)", gap_sample);
      ("Number of Affected Users",
       [Num (dbl 7); Num (dbl 7); NA; Num (dbl 1); Num (dbl 4)]);
      ("Incident Resolution Time (in Hours)",
       [NA; Num (dbl 2); Num (dbl 8); Num (dbl 4); Num (dbl 6)]) ].

(** The same table with no observed number of affected users. *)
Definition sample_df_unobserved : DataFrame :=
  mkDataFrame 5
    [ ("Attack Type", [Str "Phishing"; NA; Str "DDoS"; Str "Malware"; NA]);
      ("Financial Loss (in Million $)", gap_sample);
      ("Number of Affected Users", [NA; NA; NA; NA; NA]);
      ("Incident Resolution Time (in Hours)",
       [NA; Num (dbl 2); Num (dbl 8); Num (dbl 4); Num (dbl 6)]) ].

Definition sample_world : world := mkWorld sample_df [].

(** The values 0.1, 0.1, 0.7, 1.3 and 3.1: over the reals the last one
    lies on the upper fence 1.3 + 1.5 * (1.3 - 0.1). *)
Definition fence_sample : Series :=
  [Num (decimal 1 10); Num (decimal 1 10); Num (decimal 7 10);
   Num (decimal 13 10); Num (decimal 31 10)].

(** A table with outliers in two of its numeric columns. *)
Definition outlier_df : DataFrame :=
  mkDataFrame 6
    [ ("Financial Loss (in Million $)", quartile_sample);
      ("Number of Affected Users", fence_sample ++ [NA]);
      ("Incident Resolution Time (in Hours)",
       [Num (dbl 2); NA; Num (dbl 8); Num (dbl 4); Num (dbl 6);
        Num (dbl 3)]) ].

Definition outlier_world : world := mkWorld outlier_df [].

(** A table with the two infinities as the only losses, and with two
    affected-user counts, 1e308 and 1.7e308, whose sum overflows. *)
Definition extreme_df : DataFrame :=
  mkDataFrame 3
    [ ("Financial Loss (in Million $)",
       [Num (Dinf false); Num (Dinf true); NA]);
      ("Number of Affected Users",
       [Num (dbl (10 ^ 308)); Num (dbl (17 * 10 ^ 307)); NA]);
      ("Incident Resolution Time (in Hours)",
       [Num (dbl 1); Num (dbl 2); Num (dbl 3)]) ].

Definition extreme_world : world := mkWorld extreme_df [].

(** A column reader for files of text and short unsigned integers, with
    the empty field as the only missing-value marker: enough to read the
    sample file. *)
Definition digit_value (c : ascii) : option Z :=
  let n := nat_of_ascii c in
  if ((48 <=? n) && (n <=? 57))%nat then Some (Z.of_nat (n - 48)) else None.

Fixpoint parse_digits (acc : Z) (t : string) : option Z :=
  match t with
  | EmptyString => Some acc
  | String c r =>
      match digit_value c with
      | Some d => parse_digits (10 * acc + d) r
      | None => None
      end
  end.

Definition digits_cell (f : option string) : option cell :=
  match f with
  | None => Some NA
  | Some t =>
      if String.eqb t "" then Some NA
      else option_map (fun z => Num (dbl z)) (parse_digits 0 t)
  end.

Definition text_cell (f : option string) : cell :=
  match f with
  | None => NA
  | Some t => if String.eqb t "" then NA else Str t
  end.

Definition sample_infer (fields : list (option string)) : Series :=
  if forallb (fun f => match digits_cell f with
                       | Some _ => true
                       | None => false
                       end) fields
  then map (fun f => match digits_cell f with
                     | Some c => c
                     | None => NA
                     end) fields
  else map text_cell fields.



(** ** The other cells of the notebook *)

(** *** Cells 1 and 2.1: a first look at the table *)

(** [df.shape] *)
Definition shape (d : DataFrame) : nat * nat :=
  (index d, length (columns d)).

(** [df.head()]: the first five rows. *)
Definition head (d : DataFrame) : DataFrame :=
  mkDataFrame (Nat.min 5 (index d))
              (map (fun kv => (fst kv, firstn 5 (snd kv))) (columns d)).

(** [df.isnull().sum()]: the number of missing cells of every column. *)
Definition isnull_sum_df (d : DataFrame) : list (string * nat) :=
  map (fun kv => (fst kv, isnull_sum (snd kv))) (columns d).

(** *** Cells 3.1 to 3.3: frequencies *)

(** Equality of two cells as values: numbers by their value (the two
    zeros are one value), text letter by letter. *)
Definition cell_eqb (a b : cell) : bool :=
  match a, b with
  | NA, NA => true
  | Num x, Num y => d_eqb x y
  | Str s, Str t => String.eqb s t
  | _, _ => false
  end.

(** One more occurrence of [c] in a table of counts kept in order of
    first appearance. *)
Fixpoint count_add (c : cell) (acc : list (cell * nat)) : list (cell * nat) :=
  match acc with
  | [] => [(c, 1%nat)]
  | (k, n) :: rest =>
      if cell_eqb c k then (k, S n) :: rest else (k, n) :: count_add c rest
  end.

(** The distinct values of a column with their number of occurrences,
    missing cells left out. *)
Definition tally (s : Series) : list (cell * nat) :=
  fold_left (fun acc c => if isnull c then acc else count_add c acc) s [].

(** Stable insertion sort for an order given as a boolean test. *)
Fixpoint insert_by {A} (leb : A -> A -> bool) (x : A) (l : list A) : list A :=
  match l with
  | [] => [x]
  | y :: r => if leb x y then x :: y :: r else y :: insert_by leb x r
  end.

Definition sort_by {A} (leb : A -> A -> bool) (l : list A) : list A :=
  fold_right (insert_by leb) [] l.

Definition count_geb (a b : cell * nat) : bool := (snd b <=? snd a)%nat.

(** [s.value_counts()]: the counts of the distinct values, largest
    first.  Values with the same count are kept in the order of their
    first appearance; pandas makes no promise about that order. *)
Definition value_counts (s : Series) : list (cell * nat) :=
  sort_by count_geb (tally s).

(** The order of labels: numbers by value, text by code point; a number
    sorts before text and a missing label last. *)
Definition cell_leb (a b : cell) : bool :=
  match a, b with
  | Num x, Num y => d_leb x y
  | Str s, Str t => String.leb s t
  | Num _, Str _ => true
  | Str _, Num _ => false
  | _, NA => true
  | NA, _ => false
  end.

Definition is_num (c : cell) : bool :=
  match c with Num _ => true | _ => false end.

Definition is_str (c : cell) : bool :=
  match c with Str _ => true | _ => false end.

(** Labels that can be compared with one another: no number next to
    text. *)
Definition comparable (keys : list cell) : bool :=
  forallb (fun c => negb (is_str c)) keys
  || forallb (fun c => negb (is_num c)) keys.

Definition key_leb (a b : cell * nat) : bool := cell_leb (fst a) (fst b).

(** [s.sort_index()] on a column of counts: by label, ascending, missing
    labels last; comparing a number with text raises [TypeError]. *)
Definition sort_index (s : list (cell * nat)) : result (list (cell * nat)) :=
  if comparable (map fst s) then Ok (sort_by key_leb s)
  else Raise TypeError.

(** The three frequency tables the script charts. *)
Definition attack_type_counts : M (list (cell * nat)) :=
  s <- df_getitem "Attack Type" ;;
  ret (value_counts s).

Definition incidents_per_year : M (list (cell * nat)) :=
  s <- df_getitem "Year" ;;
  lift (sort_index (value_counts s)).

Definition top_countries : M (list (cell * nat)) :=
  s <- df_getitem "Country" ;;
  ret (firstn 10 (value_counts s)).

(** *** Cell 6.1: average loss per year *)



Section Means.

(** The mean pandas takes of the values of one group, a compensated sum
    over the rows divided by their number, is taken as given. *)
Variable group_mean : list float64 -> float64.



End Means.


(** How often a value occurs in a column. *)
Definition occurrences (k : cell) (s : Series) : nat :=
  length (filter (fun c => cell_eqb c k) s).

(** The sum of the counts of a frequency table. *)
Definition total_count (l : list (cell * nat)) : nat :=
  fold_right (fun e n => (snd e + n)%nat) 0%nat l.

(** No two entries of a frequency table stand for the same value. *)
Fixpoint distinct_keys {A} (l : list (cell * A)) : Prop :=
  match l with
  | [] => True
  | e :: r =>
      Forall (fun e' => cell_eqb (fst e) (fst e') = false) r /\ distinct_keys r
  end.

(** Both labels are numbers and the first is the smaller one. *)
Definition num_lt (a b : cell) : Prop :=
  match a, b with
  | Num x, Num y => d_ltb x y = true
  | _, _ => False
  end.

(** A table with years and attack types. *)
Definition incident_years : Series :=
  [Num (dbl 2019); Num (dbl 2017); Num (dbl 2019); Num (dbl 2020); NA;
   Num (dbl 2017)].

Definition incident_losses : Series :=
  [Num (dbl 80); Num (dbl 38); NA; Num (dbl 12); Num (dbl 7); Num (dbl 40)].

Definition incident_df : DataFrame :=
  mkDataFrame 6
    [ ("Attack Type",
       [Str "Phishing"; Str "DDoS"; Str "Phishing"; NA; Str "DDoS";
        Str "Malware"]);
      ("Year", incident_years);
      ("Country",
       [Str "UK"; Str "China"; Str "UK"; Str "India"; Str "UK"; NA]);
      ("Financial Loss (in Million $)", incident_losses);
      ("Number of Affected Users",
       [Num (dbl 7); Num (dbl 7); NA; Num (dbl 1); Num (dbl 4); Num (dbl 9)]);
      ("Incident Resolution Time (in Hours)",
       [NA; Num (dbl 2); Num (dbl 8); Num (dbl 4); Num (dbl 6); Num (dbl 3)]) ].

Definition incident_world : world := mkWorld incident_df [].

(** ** The order of doubles, by rank *)

(** The order compares the sign class, then the exponent, then the
    significand. *)
Definition rank (x : double) : Z * Z * Z :=
  match x with
  | Dinf true => (-2, 0, 0)
  | Dfin true m e => (-1, - e, Zneg m)
  | Dzero _ => (0, 0, 0)
  | Dfin false m e => (1, e, Zpos m)
  | Dinf false => (2, 0, 0)
  end%Z.

Definition lex3 (a b : Z * Z * Z) : comparison :=
  match a, b with
  | (a1, a2, a3), (b1, b2, b3) =>
      match (a1 ?= b1)%Z with
      | Eq => match (a2 ?= b2)%Z with
              | Eq => (a3 ?= b3)%Z
              | c => c
              end
      | c => c
      end
  end.

Definition lex_lt (a b : Z * Z * Z) : Prop :=
  (fst (fst a) < fst (fst b)
   \/ fst (fst a) = fst (fst b)
      /\ (snd (fst a) < snd (fst b)
          \/ snd (fst a) = snd (fst b) /\ snd a < snd b))%Z.

(** * Properties *)

(** ** The order of doubles *)

Lemma d_compare_rank (x y : double) : d_compare x y = lex3 (rank x) (rank y).
Proof.
  destruct x as [[]|[]|[] m1 e1], y as [[]|[]|[] m2 e2];
    try reflexivity; unfold d_compare;
    cbn [to_spec SFcompare rank lex3 Z.compare];
    rewrite ?Z.compare_opp, ?(Z.compare_antisym e1 e2);
    destruct (e1 ?= e2)%Z; reflexivity.
Qed.

Lemma lex3_spec a b : CompareSpec (a = b) (lex_lt a b) (lex_lt b a) (lex3 a b).
Proof.
  destruct a as [[a1 a2] a3], b as [[b1 b2] b3]. unfold lex_lt.
  cbn [lex3 fst snd].
  destruct (Z.compare_spec a1 b1); [destruct (Z.compare_spec a2 b2);
    [destruct (Z.compare_spec a3 b3)|..]|..]; constructor;
    try (subst; reflexivity); lia.
Qed.

Ltac by_rank :=
  unfold d_leb, d_ltb, d_eqb; rewrite ?d_compare_rank;
  repeat match goal with
         | |- context [lex3 ?a ?b] =>
             destruct (lex3_spec a b)
         end;
  unfold lex_lt in *;
  repeat match goal with
         | x : double |- _ =>
             let a := fresh "a" in
             let b := fresh "b" in
             let c := fresh "c" in
             destruct (rank x) as [[a b] c]; clear x
         end;
  cbn [fst snd] in *;
  repeat match goal with
         | H : (_, _) = (_, _) |- _ => injection H as ? ? ?
         end;
  try reflexivity; try discriminate; try (exfalso; lia).

Lemma d_leb_refl a : d_leb a a = true.
Proof. by_rank. Qed.

Lemma d_leb_total a b : d_leb a b = false -> d_leb b a = true.
Proof. by_rank. Qed.

Lemma d_leb_trans a b c : d_leb a b = true -> d_leb b c = true -> d_leb a c = true.
Proof. by_rank. Qed.

Lemma d_ltb_leb a b : d_ltb a b = negb (d_leb b a).
Proof. by_rank. Qed.

Lemma d_ltb_trans a b c : d_ltb a b = true -> d_ltb b c = true -> d_ltb a c = true.
Proof. by_rank. Qed.


Lemma d_leb_ltb a b : d_leb a b = true -> d_eqb a b = false -> d_ltb a b = true.
Proof. by_rank. Qed.

Lemma d_eqb_refl a : d_eqb a a = true.
Proof. by_rank. Qed.

Lemma d_eqb_sym a b : d_eqb a b = d_eqb b a.
Proof. by_rank. Qed.

Lemma d_eqb_trans a b c : d_eqb a b = true -> d_eqb b c = true -> d_eqb a c = true.
Proof. by_rank. Qed.

(** The IEEE comparison of two numbers is that order. *)
Lemma f_lt_Some x y : f_lt (Some x) (Some y) = d_ltb x y.
Proof.
  unfold f_lt, SFltb, d_ltb, d_compare.
  destruct (SFcompare (to_spec (Some x)) (to_spec (Some y))) as [[]|];
    reflexivity.
Qed.

Lemma f_lt_NaN_l b : f_lt NaN b = false.
Proof. reflexivity. Qed.

Lemma f_lt_NaN_r a : f_lt a NaN = false.
Proof. destruct a as [[]|]; reflexivity. Qed.
(** ** Sorting *)

Lemma insert_sorted_perm (x : double) (l : list double) :
  Permutation (x :: l) (insert_sorted x l).
Proof.
  induction l as [|y r IH]; simpl.
  - apply Permutation_refl.
  - destruct (d_leb x y).
    + apply Permutation_refl.
    + eapply perm_trans; [apply perm_swap|].
      apply perm_skip, IH.
Qed.

Lemma sort_perm (l : list double) : Permutation l (sort l).
Proof.
  induction l as [|x r IH]; simpl.
  - constructor.
  - eapply perm_trans; [apply perm_skip, IH|].
    apply insert_sorted_perm.
Qed.

Lemma sort_length (l : list double) : length (sort l) = length l.
Proof. symmetry. apply Permutation_length, sort_perm. Qed.

Lemma insert_sorted_sorted (x : double) (l : list double) :
  Sorted (fun a b => d_leb a b = true) l ->
  Sorted (fun a b => d_leb a b = true) (insert_sorted x l).
Proof.
  induction l as [|y r IH]; simpl; intros Hs.
  - repeat constructor.
  - destruct (d_leb x y) eqn:E.
    + constructor; [assumption|]. now constructor.
    + apply d_leb_total in E.
      inversion Hs as [|? ? Hr Hhd]; subst.
      constructor; [now apply IH|].
      destruct r as [|z r']; simpl.
      * now constructor.
      * destruct (d_leb x z); constructor; [assumption|].
        now inversion Hhd.
Qed.

Lemma sort_sorted (l : list double) :
  Sorted (fun a b => d_leb a b = true) (sort l).
Proof.
  induction l as [|x r IH]; simpl.
  - constructor.
  - now apply insert_sorted_sorted.
Qed.

Lemma sort_strongly_sorted l :
  StronglySorted (fun a b => d_leb a b = true) (sort l).
Proof.
  apply Sorted_StronglySorted; [|apply sort_sorted].
  intros a b c. apply d_leb_trans.
Qed.

Lemma sort_In x l : In x (sort l) -> In x l.
Proof. apply Permutation_in, Permutation_sym, sort_perm. Qed.

(** ** Order statistics of a sorted sample *)

Lemma sorted_nth_le v d i j :
  StronglySorted (fun a b => d_leb a b = true) v ->
  (i <= j)%nat -> (j < length v)%nat ->
  d_leb (nth i v d) (nth j v d) = true.
Proof.
  intros Hs. revert i j. induction Hs as [|x v Hs IH Hx]; intros i j Hij Hj.
  - simpl in Hj. lia.
  - destruct j as [|j].
    + assert (i = 0%nat) as -> by lia. apply d_leb_refl.
    + destruct i as [|i]; simpl.
      * rewrite Forall_forall in Hx. apply Hx. apply nth_In. simpl in Hj. lia.
      * apply IH; simpl in Hj; lia.
Qed.

Lemma filter_length_perm {A} (p : A -> bool) l l' :
  Permutation l l' -> length (filter p l) = length (filter p l').
Proof.
  induction 1; simpl;
    repeat match goal with |- context [p ?a] => destruct (p a) end;
    simpl; lia.
Qed.

Lemma filter_all {A} (p : A -> bool) l :
  (forall x, In x l -> p x = true) -> filter p l = l.
Proof.
  induction l as [|a l IH]; simpl; intros H; [reflexivity|].
  rewrite (H a (or_introl eq_refl)). f_equal. apply IH. auto.
Qed.

Lemma filter_nothing {A} (p : A -> bool) l :
  (forall x, In x l -> p x = false) -> filter p l = [].
Proof.
  induction l as [|a l IH]; simpl; intros H; [reflexivity|].
  rewrite (H a (or_introl eq_refl)). apply IH. auto.
Qed.

Lemma In_skipn_nth {A} (l : list A) i x d :
  In x (skipn i l) -> exists j, (i <= j < length l)%nat /\ nth j l d = x.
Proof.
  intros H. destruct (In_nth _ _ d H) as (k & Hk & Hn).
  rewrite length_skipn in Hk. rewrite nth_skipn in Hn.
  exists (i + k)%nat. split; [lia|assumption].
Qed.

Lemma In_firstn_nth {A} (l : list A) i x d :
  In x (firstn i l) -> exists j, (j < i)%nat /\ (j < length l)%nat /\ nth j l d = x.
Proof.
  intros H. destruct (In_nth _ _ d H) as (k & Hk & Hn).
  rewrite length_firstn in Hk.
  exists k. split; [lia|]. split; [lia|].
  rewrite <- Hn, nth_firstn.
  replace (k <? i)%nat with true; [reflexivity|].
  symmetry. apply Nat.ltb_lt. lia.
Qed.

(** In a sorted sample, the values strictly below the one at position
    [k] come before it, and the values up to position [k] are at or
    below it. *)
Lemma sorted_count_lt v d k :
  StronglySorted (fun a b => d_leb a b = true) v -> (k < length v)%nat ->
  (count_lt (nth k v d) v <= k)%nat.
Proof.
  intros Hs Hk. unfold count_lt.
  rewrite <- (firstn_skipn k v) at 1. rewrite filter_app, length_app.
  rewrite (filter_nothing _ (skipn k v)).
  - cbn [length]. rewrite Nat.add_0_r.
    pose proof (filter_length_le (fun y => d_ltb y (nth k v d)) (firstn k v))
      as H.
    rewrite length_firstn in H. lia.
  - intros x Hx. destruct (In_skipn_nth _ _ _ d Hx) as (j & Hj & <-).
    rewrite d_ltb_leb. apply negb_false_iff.
    apply sorted_nth_le; [assumption|lia|lia].
Qed.

Lemma sorted_count_le v d k :
  StronglySorted (fun a b => d_leb a b = true) v -> (k < length v)%nat ->
  (k < count_le (nth k v d) v)%nat.
Proof.
  intros Hs Hk. unfold count_le.
  rewrite <- (firstn_skipn (S k) v) at 1. rewrite filter_app, length_app.
  rewrite (filter_all _ (firstn (S k) v)).
  - rewrite length_firstn. lia.
  - intros x Hx. destruct (In_firstn_nth _ _ _ d Hx) as (j & Hj & Hjl & <-).
    apply sorted_nth_le; [assumption|lia|lia].
Qed.

Lemma is_kth_perm k x l l' :
  Permutation l l' -> is_kth k l x = is_kth k l' x.
Proof.
  intros HP. unfold is_kth, count_lt, count_le.
  now rewrite (filter_length_perm _ _ _ HP),
    (filter_length_perm (fun y => d_leb y x) _ _ HP).
Qed.

(** The value at position [k] of the sorted sample is a [k]-th smallest
    value of the sample. *)
Lemma sort_kth l d k :
  (k < length l)%nat -> kth_smallest k l (nth k (sort l) d).
Proof.
  intros Hk. pose proof (sort_strongly_sorted l) as Hs.
  assert (Hk' : (k < length (sort l))%nat) by now rewrite sort_length.
  split.
  - apply sort_In, nth_In. exact Hk'.
  - rewrite (is_kth_perm _ _ _ _ (sort_perm l)). unfold is_kth.
    apply andb_true_intro. split.
    + apply Nat.leb_le. now apply sorted_count_lt.
    + apply Nat.ltb_lt. now apply sorted_count_le.
Qed.

(** ** The median and the quantiles of a sample *)

Lemma sort_nonempty l : l <> [] -> sort l <> [].
Proof.
  intros H E. apply H. apply length_zero_iff_nil.
  rewrite <- sort_length, E. reflexivity.
Qed.

(** What [nanmedian] computes is the median of the observed values. *)
Lemma nanmedian_is_median xs : is_median (observed xs) (nanmedian xs).
Proof.
  unfold nanmedian, is_median. cbv zeta.
  destruct (observed xs) as [|y o] eqn:E; [reflexivity|].
  pose proof (sort_length (y :: o)) as Hlen.
  destruct (sort (y :: o)) as [|x0 v'] eqn:Es.
  { exfalso. apply (sort_nonempty (y :: o)); [discriminate|exact Es]. }
  rewrite <- Es in *. rewrite Hlen.
  set (l := y :: o) in *. set (n := length l) in *.
  assert (Hn : (1 <= n)%nat) by (unfold n, l; simpl; lia).
  exists (nth ((n - 1) / 2) (sort l) x0), (nth (n / 2) (sort l) x0).
  split; [apply sort_kth; fold n|].
  { assert ((n - 1) / 2 <= n - 1)%nat by (apply Nat.Div0.div_le_upper_bound; lia).
    lia. }
  split; [apply sort_kth; fold n|].
  { apply Nat.div_lt; lia. }
  destruct (Nat.odd n) eqn:Hodd; [reflexivity|].
  assert (Hev : exists k, n = (2 * k)%nat).
  { apply Nat.even_spec. rewrite <- Nat.negb_odd, Hodd. reflexivity. }
  destruct Hev as [k Hk].
  replace ((n - 1) / 2)%nat with (n / 2 - 1)%nat; [reflexivity|].
  rewrite Hk. rewrite (Nat.mul_comm 2 k), Nat.div_mul by discriminate.
  destruct k as [|k]; [lia|].
  replace (S k * 2 - 1)%nat with (1 + k * 2)%nat by lia.
  rewrite Nat.div_add by discriminate. simpl. lia.
Qed.

Lemma lower_index_lt q n : (1 <= n)%nat -> (lower_index q n < n)%nat.
Proof. intros Hn. unfold lower_index. destruct (at_end q n); lia. Qed.

Lemma upper_index_lt q n : (1 <= n)%nat -> (upper_index q n < n)%nat.
Proof. intros Hn. unfold upper_index. destruct (at_end q n); lia. Qed.

(** What [nanquantile] computes is the quantile of the observed
    values. *)
Lemma nanquantile_is_quantile q xs :
  is_quantile q (observed xs) (nanquantile q xs).
Proof.
  unfold nanquantile, is_quantile. cbv zeta.
  destruct (observed xs) as [|y o] eqn:E; [reflexivity|].
  pose proof (sort_length (y :: o)) as Hlen.
  destruct (sort (y :: o)) as [|x0 v'] eqn:Es.
  { exfalso. apply (sort_nonempty (y :: o)); [discriminate|exact Es]. }
  rewrite <- Es in *. rewrite Hlen.
  set (l := y :: o) in *. set (n := length l) in *.
  assert (Hn : (1 <= n)%nat) by (unfold n, l; simpl; lia).
  exists (nth (lower_index q n) (sort l) x0),
         (nth (upper_index q n) (sort l) x0).
  split; [apply sort_kth; fold n; now apply lower_index_lt|].
  split; [apply sort_kth; fold n; now apply upper_index_lt|].
  reflexivity.
Qed.

(** ** Column lookup and assignment *)

Lemma get_set_same k s cols : get_column k (set_column k s cols) = Some s.
Proof.
  induction cols as [|[k' s'] rest IH]; simpl.
  - now rewrite String.eqb_refl.
  - destruct (String.eqb k k') eqn:E; simpl; rewrite ?String.eqb_refl, ?E; auto.
Qed.

Lemma get_set_other k k' s cols :
  k' <> k -> get_column k' (set_column k s cols) = get_column k' cols.
Proof.
  intros Hne.
  induction cols as [|[k0 s0] rest IH]; simpl.
  - apply String.eqb_neq in Hne. now rewrite Hne.
  - destruct (String.eqb k k0) eqn:E; simpl.
    + apply String.eqb_eq in E. subst k0.
      apply String.eqb_neq in Hne. now rewrite Hne.
    + destruct (String.eqb k' k0); auto.
Qed.

Lemma get_column_In k s cols : get_column k cols = Some s -> In (k, s) cols.
Proof.
  induction cols as [|[k' s'] rest IH]; simpl; [discriminate|].
  destruct (String.eqb k k') eqn:E.
  - apply String.eqb_eq in E. intros [= ->]. subst. now left.
  - intros H. right. now apply IH.
Qed.

Lemma get_column_None k cols :
  get_column k cols = None -> ~ In k (map fst cols).
Proof.
  induction cols as [|[k' s'] rest IH]; simpl; [tauto|].
  destruct (String.eqb k k') eqn:E; [discriminate|].
  apply String.eqb_neq in E. intros H [Heq|Hin]; [congruence|].
  now apply IH.
Qed.

Lemma nodupb_NoDup l : nodupb l = true -> NoDup l.
Proof.
  induction l as [|x r IH]; simpl; intros H.
  - constructor.
  - apply andb_prop in H as [Hx Hr].
    constructor; [|now apply IH].
    intros Hin. apply negb_true_iff in Hx.
    assert (existsb (String.eqb x) r = true); [|congruence].
    apply existsb_exists. exists x. split; [assumption|apply String.eqb_refl].
Qed.

Lemma In_get_column k s cols :
  NoDup (map fst cols) -> In (k, s) cols -> get_column k cols = Some s.
Proof.
  induction cols as [|[k' s'] rest IH]; simpl; [tauto|].
  intros Hnd [Heq|Hin].
  - injection Heq as -> ->. now rewrite String.eqb_refl.
  - inversion Hnd as [|? ? Hnot Hnd']; subst.
    destruct (String.eqb k k') eqn:E.
    + apply String.eqb_eq in E. subst k'.
      exfalso. apply Hnot. change k with (fst (k, s)). now apply in_map.
    + now apply IH.
Qed.

Lemma existsb_eqb_In k keys : existsb (String.eqb k) keys = true <-> In k keys.
Proof.
  rewrite existsb_exists. split.
  - intros (x & Hin & E). apply String.eqb_eq in E. now subst.
  - intros Hin. exists k. split; [assumption|apply String.eqb_refl].
Qed.

Lemma existsb_eqb_not_In k keys :
  existsb (String.eqb k) keys = false <-> ~ In k keys.
Proof.
  rewrite <- existsb_eqb_In. destruct (existsb _ _); intuition congruence.
Qed.

(** Assigning an existing column of a table with distinct labels rewrites
    exactly the entry under that label. *)
Lemma set_column_map k s cols :
  In k (map fst cols) ->
  NoDup (map fst cols) ->
  set_column k s cols =
  map (fun kv => if String.eqb k (fst kv) then (fst kv, s) else kv) cols.
Proof.
  induction cols as [|[k' s'] rest IH]; simpl; [tauto|].
  intros Hin Hnd. inversion Hnd as [|? ? Hnot Hnd']; subst.
  destruct (String.eqb k k') eqn:E.
  - apply String.eqb_eq in E. subst k'. f_equal.
    rewrite <- (map_id rest) at 1. apply map_ext_in.
    intros [k0 s0] H0. simpl.
    destruct (String.eqb k k0) eqn:E0; [|reflexivity].
    apply String.eqb_eq in E0. subst k0.
    exfalso. apply Hnot. change k with (fst (k, s0)). now apply in_map.
  - f_equal. apply IH; [|assumption].
    destruct Hin as [Heq|Hin]; [|assumption].
    apply String.eqb_neq in E. congruence.
Qed.

Lemma set_column_names k s cols :
  In k (map fst cols) -> map fst (set_column k s cols) = map fst cols.
Proof.
  induction cols as [|[k' s'] rest IH]; simpl; [tauto|].
  intros Hin. destruct (String.eqb k k') eqn:E; simpl.
  - apply String.eqb_eq in E. now subst.
  - f_equal. apply IH. destruct Hin as [Heq|Hin]; [|assumption].
    apply String.eqb_neq in E. congruence.
Qed.

(** ** Numeric columns *)

Lemma to_numeric_floats s :
  numeric_column s = true -> to_numeric s = Ok (floats s).
Proof.
  unfold to_numeric, numeric_column.
  induction s as [|c r IH]; simpl; [reflexivity|].
  intros H. apply andb_prop in H as [Hc Hr].
  rewrite (IH Hr). destruct c; simpl; [reflexivity|reflexivity|discriminate].
Qed.

Lemma to_numeric_text s :
  numeric_column s = false -> to_numeric s = Raise TypeError.
Proof.
  unfold to_numeric, numeric_column.
  induction s as [|c r IH]; simpl; [discriminate|].
  destruct c; simpl; intros H; try reflexivity; now rewrite (IH H).
Qed.

Lemma numeric_present_In keys d k :
  numeric_present keys d = true -> In k keys ->
  exists s, get_column k (columns d) = Some s /\ numeric_column s = true.
Proof.
  unfold numeric_present. rewrite forallb_forall. intros H Hin.
  specialize (H k Hin). destruct (get_column k (columns d)) as [s|];
    [|discriminate].
  now exists s.
Qed.

Lemma numeric_present_column_of keys d k :
  numeric_present keys d = true -> In k keys ->
  get_column k (columns d) = Some (column_of k d)
  /\ numeric_column (column_of k d) = true.
Proof.
  intros H Hin. destruct (numeric_present_In _ _ _ H Hin) as (s & Hg & Hn).
  unfold column_of. now rewrite Hg.
Qed.

Lemma numeric_present_cons k keys d :
  numeric_present (k :: keys) d = true ->
  numeric_present [k] d = true /\ numeric_present keys d = true.
Proof.
  unfold numeric_present. simpl. intros H.
  apply andb_prop in H as [H1 H2]. now rewrite H1, H2.
Qed.

(** ** The pieces of the imputation statement *)

Lemma select_present keys d :
  numeric_present keys d = true ->
  select keys (columns d) = Some (map (fun k => (k, column_of k d)) keys).
Proof.
  induction keys as [|k ks IH]; simpl; intros H; [reflexivity|].
  destruct (numeric_present_column_of (k :: ks) d k H) as [Hg _]; [now left|].
  apply numeric_present_cons in H as [_ H].
  now rewrite Hg, (IH H).
Qed.

Lemma select_Some_inv keys cols r :
  select keys cols = Some r ->
  map fst r = keys /\ forall kv, In kv r -> get_column (fst kv) cols = Some (snd kv).
Proof.
  revert r. induction keys as [|k ks IH]; simpl; intros r H.
  - injection H as <-. split; [reflexivity|]. intros kv [].
  - destruct (get_column k cols) as [s|] eqn:Hg; [|discriminate].
    destruct (select ks cols) as [r'|]; [|discriminate].
    injection H as <-. destruct (IH r' eq_refl) as [Hk Hr]. split.
    + simpl. now f_equal.
    + intros kv [<-|Hin]; [assumption|now apply Hr].
Qed.

Lemma median_numeric keys d n :
  numeric_present keys d = true ->
  median (mkDataFrame n (map (fun k => (k, column_of k d)) keys))
  = Ok (map (fun k => (k, median_of (column_of k d))) keys).
Proof.
  unfold median. simpl.
  induction keys as [|k ks IH]; simpl; intros H; [reflexivity|].
  destruct (numeric_present_column_of (k :: ks) d k H) as [_ Hn]; [now left|].
  apply numeric_present_cons in H as [_ H].
  rewrite (to_numeric_floats _ Hn). simpl. now rewrite (IH H).
Qed.

Lemma median_Ok_inv d med :
  median d = Ok med ->
  forall kv, In kv (columns d) -> numeric_column (snd kv) = true.
Proof.
  unfold median. generalize (columns d). intros cols. revert med.
  induction cols as [|[k s] rest IH]; simpl; intros med H kv Hin; [tauto|].
  destruct (numeric_column s) eqn:Hs.
  - rewrite (to_numeric_floats _ Hs) in H. simpl in H.
    destruct (rmap _ rest) as [m'|e] eqn:Hr; [|discriminate].
    destruct Hin as [<-|Hin]; [assumption|].
    now apply (IH m' eq_refl).
  - rewrite (to_numeric_text _ Hs) in H. discriminate.
Qed.

Lemma fillna_step_skip k0 x rest kv :
  fst kv <> k0 ->
  fillna_step ((k0, x) :: rest) kv = (k0, x) :: fillna_step rest kv.
Proof.
  intros Hne. unfold fillna_step. simpl.
  apply String.eqb_neq in Hne. rewrite Hne.
  destruct (get_column (fst kv) rest); reflexivity.
Qed.

Lemma fillna_fold_skip (m : string -> float64) k0 x keys rest :
  ~ In k0 keys ->
  fold_left fillna_step (map (fun k => (k, m k)) keys) ((k0, x) :: rest)
  = (k0, x) :: fold_left fillna_step (map (fun k => (k, m k)) keys) rest.
Proof.
  revert rest. induction keys as [|k ks IH]; simpl; intros rest Hn;
    [reflexivity|].
  rewrite fillna_step_skip by (simpl; intuition congruence).
  apply IH. tauto.
Qed.

Lemma fillna_fold (m : string -> float64) (c : string -> Series) keys :
  NoDup keys ->
  fold_left fillna_step (map (fun k => (k, m k)) keys)
            (map (fun k => (k, c k)) keys)
  = map (fun k => (k, fillna_scalar (m k) (c k))) keys.
Proof.
  induction keys as [|k ks IH]; simpl; intros Hnd; [reflexivity|].
  inversion Hnd as [|? ? Hnot Hnd']; subst.
  unfold fillna_step at 2. simpl. rewrite String.eqb_refl.
  rewrite fillna_fold_skip by assumption.
  f_equal. now apply IH.
Qed.

Lemma fillna_scalar_length v s : length (fillna_scalar v s) = length s.
Proof. destruct v; simpl; [apply length_map|reflexivity]. Qed.

Lemma reindex_same n s : length s = n -> reindex n s = s.
Proof.
  intros <-. unfold reindex.
  rewrite firstn_all, Nat.sub_diag. apply app_nil_r.
Qed.

Lemma setitem_list_unfold keys value d :
  setitem_list keys value d
  = mkDataFrame (index d)
      (fold_left (fun acc kv =>
                    set_column (fst kv) (reindex (index d) (snd (snd kv))) acc)
                 (combine keys (columns value)) (columns d)).
Proof.
  unfold setitem_list. generalize (combine keys (columns value)).
  intros l. revert d. induction l as [|kv l IH]; intros d; simpl.
  - now destruct d.
  - rewrite IH. reflexivity.
Qed.

Lemma fold_set_column_map (F : string -> Series) keys cols :
  NoDup (map fst cols) ->
  (forall k, In k keys -> In k (map fst cols)) ->
  fold_left (fun acc k => set_column k (F k) acc) keys cols
  = map (fun kv => if existsb (String.eqb (fst kv)) keys
                   then (fst kv, F (fst kv)) else kv) cols.
Proof.
  revert cols. induction keys as [|k ks IH]; simpl; intros cols Hnd Hin.
  - symmetry. apply map_id.
  - rewrite IH.
    + rewrite set_column_map by auto. rewrite map_map.
      apply map_ext. intros [k0 s0]. simpl.
      rewrite (String.eqb_sym k0 k).
      destruct (String.eqb k k0) eqn:E; simpl.
      * apply String.eqb_eq in E. subst k0.
        destruct (existsb _ ks); reflexivity.
      * reflexivity.
    + rewrite set_column_names by auto. assumption.
    + intros k' Hk'. rewrite set_column_names by auto. auto.
Qed.

Lemma combine_self {A} (v : string -> A) keys :
  combine keys (map (fun k => (k, v k)) keys)
  = map (fun k => (k, (k, v k))) keys.
Proof. induction keys; simpl; congruence. Qed.

Lemma fold_left_map_list {A B C} (f : A -> B -> A) (g : C -> B) l a :
  fold_left f (map g l) a = fold_left (fun x c => f x (g c)) l a.
Proof. revert a. induction l; simpl; auto. Qed.

Lemma wf_df_NoDup d : wf_df d = true -> NoDup (map fst (columns d)).
Proof.
  unfold wf_df. intros H. apply andb_prop in H as [H _].
  now apply nodupb_NoDup.
Qed.

Lemma wf_df_length d kv :
  wf_df d = true -> In kv (columns d) -> length (snd kv) = index d.
Proof.
  unfold wf_df. intros H Hin. apply andb_prop in H as [_ H].
  rewrite forallb_forall in H. apply Nat.eqb_eq. now apply H.
Qed.

(** ** The imputation statement as a whole *)

(** On a table whose listed columns exist and are numeric, the statement
    completes and rewrites exactly the listed columns, each from its own
    content. *)
Lemma impute_ok keys w :
  wf_df (df w) = true ->
  numeric_present keys (df w) = true ->
  NoDup keys ->
  impute keys w
  = (Ok tt, mkWorld (mkDataFrame (index (df w))
                                 (map (impute_entry keys) (columns (df w))))
                    (stdout w)).
Proof.
  intros Hwf Hnum Hnd.
  unfold impute, bind, df_getitem_list, getitem_list, lift, df_setitem_list.
  rewrite (select_present _ _ Hnum), (median_numeric _ _ _ Hnum).
  f_equal. f_equal.
  rewrite setitem_list_unfold. f_equal.
  unfold fillna. simpl. rewrite fillna_fold by assumption.
  rewrite combine_self, fold_left_map_list. simpl.
  rewrite (fold_set_column_map
             (fun k => reindex (index (df w))
                         (fillna_scalar (median_of (column_of k (df w)))
                                        (column_of k (df w))))).
  - apply map_ext_in. intros [k s] Hin. unfold impute_entry. simpl.
    destruct (existsb (String.eqb k) keys); [|reflexivity].
    assert (Hc : column_of k (df w) = s).
    { unfold column_of.
      now rewrite (In_get_column k s _ (wf_df_NoDup _ Hwf) Hin). }
    rewrite Hc. f_equal. apply reindex_same.
    rewrite fillna_scalar_length. apply (wf_df_length _ (k, s) Hwf Hin).
  - now apply wf_df_NoDup.
  - intros k Hk.
    destruct (numeric_present_In _ _ _ Hnum Hk) as (s & Hg & _).
    apply get_column_In in Hg. change k with (fst (k, s)). now apply in_map.
Qed.

(** When the statement raises, the table and the output are as before. *)
Lemma impute_raise keys w e :
  fst (impute keys w) = Raise e -> snd (impute keys w) = w.
Proof.
  unfold impute, bind, df_getitem_list, lift, df_setitem_list.
  destruct (getitem_list keys (df w)); simpl; [|reflexivity].
  destruct (median a); simpl; [discriminate|reflexivity].
Qed.

(** The statement completes only if the listed columns exist and are
    numeric. *)
Lemma impute_Ok_inv keys w u :
  fst (impute keys w) = Ok u -> numeric_present keys (df w) = true.
Proof.
  unfold impute, bind, df_getitem_list, getitem_list, lift, df_setitem_list.
  destruct (select keys (columns (df w))) as [r|] eqn:Hsel; simpl;
    [|discriminate].
  destruct (median _) as [med|] eqn:Hmed; simpl; [|discriminate].
  intros _. destruct (select_Some_inv _ _ _ Hsel) as [Hk Hr].
  unfold numeric_present. apply forallb_forall. intros k Hin.
  rewrite <- Hk in Hin. apply in_map_iff in Hin as (kv & <- & Hkv).
  rewrite (Hr kv Hkv).
  apply (median_Ok_inv _ _ Hmed kv). exact Hkv.
Qed.

(** ** Columns of the imputed table *)

Lemma impute_entry_fst keys kv : fst (impute_entry keys kv) = fst kv.
Proof. unfold impute_entry. now destruct (existsb _ keys). Qed.

Lemma get_column_map f k cols :
  (forall kv, fst (f kv) = fst kv) ->
  get_column k (map f cols)
  = option_map (fun s => snd (f (k, s))) (get_column k cols).
Proof.
  intros Hf. induction cols as [|[k' s'] rest IH]; simpl; [reflexivity|].
  specialize (Hf (k', s')) as Hk. simpl in Hk.
  destruct (f (k', s')) as [k1 s1] eqn:E. simpl in Hk. subst k1.
  destruct (String.eqb k k') eqn:Ek.
  - apply String.eqb_eq in Ek. subst k'. simpl. now rewrite E.
  - exact IH.
Qed.

Lemma column_of_impute keys k n cols :
  column_of k (mkDataFrame n (map (impute_entry keys) cols))
  = snd (impute_entry keys (k, column_of k (mkDataFrame n cols))).
Proof.
  unfold column_of. simpl.
  rewrite (get_column_map _ _ _ (impute_entry_fst keys)).
  destruct (get_column k cols); simpl; [reflexivity|].
  unfold impute_entry. simpl. destruct (existsb _ keys); simpl; [|reflexivity].
  now destruct (median_of []).
Qed.

Lemma impute_entry_in keys k s :
  In k keys -> impute_entry keys (k, s) = (k, fillna_scalar (median_of s) s).
Proof.
  intros Hin. unfold impute_entry. simpl.
  apply existsb_eqb_In in Hin. now rewrite Hin.
Qed.

Lemma impute_entry_out keys kv : ~ In (fst kv) keys -> impute_entry keys kv = kv.
Proof.
  intros Hin. unfold impute_entry.
  apply existsb_eqb_not_In in Hin. now rewrite Hin.
Qed.

(** ** Medians and missing cells *)

Lemma observed_floats_nonempty s :
  has_observed s = true -> observed (floats s) <> [].
Proof.
  induction s as [|c r IH]; simpl; [discriminate|].
  destruct c; simpl; auto; discriminate.
Qed.

Lemma median_of_is_median s :
  is_median (observed (floats s)) (median_of s).
Proof. apply nanmedian_is_median. Qed.

(** With a regular half-sum of the middle values, the median is a
    number. *)
Lemma median_of_regular s :
  has_observed s = true ->
  regular_median (observed (floats s)) = true ->
  exists m, median_of s = Some m.
Proof.
  intros Hobs Hreg. apply observed_floats_nonempty in Hobs.
  pose proof (median_of_is_median s) as Hm. unfold is_median in Hm.
  destruct (observed (floats s)) as [|y o] eqn:E; [congruence|].
  destruct Hm as (a & b & [Ha Hka] & [Hb Hkb] & Hm).
  destruct (Nat.odd (length (y :: o))); [now exists b|].
  unfold regular_median in Hreg. rewrite forallb_forall in Hreg.
  specialize (Hreg a Ha). rewrite forallb_forall in Hreg.
  specialize (Hreg b Hb). rewrite Hka, Hkb in Hreg. cbn [andb implb] in Hreg.
  unfold regular_half_sum in Hreg. rewrite Hm.
  destruct (half_sum a b) as [m|]; [now exists m|discriminate].
Qed.

Lemma median_of_unobserved s :
  has_observed s = false -> median_of s = NaN.
Proof.
  intros H. unfold median_of, nanmedian.
  replace (observed (floats s)) with (@nil double); [reflexivity|].
  induction s as [|c r IH]; simpl in *; [reflexivity|].
  destruct c; simpl in *; auto; discriminate.
Qed.

Lemma isnull_sum_filled m s : isnull_sum (fillna_scalar (Some m) s) = 0%nat.
Proof.
  unfold isnull_sum. simpl.
  induction s as [|c r IH]; simpl; [reflexivity|].
  destruct c; simpl; exact IH.
Qed.

Lemma nth_error_filled_missing m s r :
  nth_error s r = Some NA ->
  nth_error (fillna_scalar (Some m) s) r = Some (Num m).
Proof.
  intros H. simpl. rewrite nth_error_map, H. reflexivity.
Qed.

Lemma nth_error_filled_present v s r x :
  nth_error s r = Some x -> x <> NA ->
  nth_error (fillna_scalar v s) r = Some x.
Proof.
  intros H Hx. destruct v as [m|]; simpl; [|assumption].
  rewrite nth_error_map, H. simpl. destruct x; congruence.
Qed.

Lemma unobserved_all_missing s :
  numeric_column s = true -> has_observed s = false ->
  isnull_sum s = length s.
Proof.
  unfold isnull_sum.
  induction s as [|c r IH]; simpl; [reflexivity|].
  destruct c; simpl; try discriminate. intros Hn Ho. f_equal. auto.
Qed.

Lemma NoDup_numeric_cols : NoDup numeric_cols.
Proof. apply nodupb_NoDup. reflexivity. Qed.

(** The column under a label after the imputation. *)
Lemma column_of_imputed c w :
  In c numeric_cols ->
  column_of c (mkDataFrame (index (df w))
                 (map (impute_entry numeric_cols) (columns (df w))))
  = fillna_scalar (median_of (column_of c (df w))) (column_of c (df w)).
Proof.
  intros Hc. rewrite column_of_impute.
  replace (column_of c {| index := index (df w); columns := columns (df w) |})
    with (column_of c (df w)) by reflexivity.
  now rewrite (impute_entry_in _ _ _ Hc).
Qed.

(** C1: on a table whose three numeric columns each have an observed
    value and two middle values whose half-sum, in double precision, is
    regular (a number, and infinite only if one of the two values is),
    the imputation completes, leaves no missing value in these columns,
    and puts into every cell that was missing the median of the values
    the column had before the statement: the middle observed value, or
    the half-sum of the two middle ones. *)
Theorem imputation_fills_with_median (w : world) :
  wf_df (df w) = true ->
  numeric_present numeric_cols (df w) = true ->
  (forall c, In c numeric_cols ->
     has_observed (column_of c (df w)) = true /\
     regular_median (observed (floats (column_of c (df w)))) = true) ->
  exists w',
    clean w = (Ok tt, w') /\
    forall c, In c numeric_cols ->
      isnull_sum (column_of c (df w')) = 0%nat /\
      exists m,
        is_median (observed (floats (column_of c (df w)))) (Some m) /\
        forall r, nth_error (column_of c (df w)) r = Some NA ->
                  nth_error (column_of c (df w')) r = Some (Num m).
Proof.
  intros Hwf Hnum Hobs. eexists. split.
  - apply (impute_ok _ _ Hwf Hnum NoDup_numeric_cols).
  - intros c Hc. cbn [df]. rewrite (column_of_imputed c w Hc).
    destruct (Hobs c Hc) as [Ho Hreg].
    destruct (median_of_regular _ Ho Hreg) as [m Hm].
    pose proof (median_of_is_median (column_of c (df w))) as Hmed.
    rewrite Hm in *.
    split; [apply isnull_sum_filled|].
    exists m. split; [exact Hmed|].
    intros r Hr. now apply nth_error_filled_missing.
Qed.

Lemma imputation_fills_with_median_witness :
  exists w',
    clean sample_world = (Ok tt, w') /\
    forall c, In c numeric_cols ->
      isnull_sum (column_of c (df w')) = 0%nat /\
      exists m,
        is_median (observed (floats (column_of c (df sample_world)))) (Some m) /\
        forall r, nth_error (column_of c (df sample_world)) r = Some NA ->
                  nth_error (column_of c (df w')) r = Some (Num m).
Proof.
  apply (imputation_fills_with_median sample_world).
  - reflexivity.
  - reflexivity.
  - intros c [<-|[<-|[<-|[]]]]; split; vm_compute; reflexivity.
Defined.

(** Without the hypothesis on the half-sum, C1 fails on a table whose
    three numeric columns all have observed values.  With the two
    infinities as the only losses the median is NaN and the missing
    loss stays missing; with 1e308 and 1.7e308 as the only
    affected-user counts the missing count is filled with an infinity,
    which is not the median of two finite values. *)
Lemma imputation_fills_with_median_counterexample :
  wf_df (df extreme_world) = true /\
  numeric_present numeric_cols (df extreme_world) = true /\
  (forall c, In c numeric_cols ->
     has_observed (column_of c (df extreme_world)) = true) /\
  exists w',
    clean extreme_world = (Ok tt, w') /\
    isnull_sum (column_of "Financial Loss (in Million $)" (df w')) = 1%nat /\
    column_of "Number of Affected Users" (df w')
    = [Num (dbl (10 ^ 308)); Num (dbl (17 * 10 ^ 307)); Num (Dinf false)] /\
    d_finite (dbl (10 ^ 308)) = true /\
    d_finite (dbl (17 * 10 ^ 307)) = true.
Proof.
  split; [reflexivity|]. split; [reflexivity|]. split.
  - intros c [<-|[<-|[<-|[]]]]; reflexivity.
  - eexists. split; [vm_compute; reflexivity|].
    repeat split; vm_compute; reflexivity.
Qed.

(** C2: the imputation changes no cell that held a value in the three
    numeric columns, and no cell at all, missing or not, in any other
    column; the index and the column labels stay as they were. *)
Theorem imputation_frame (w : world) :
  wf_df (df w) = true ->
  let w' := snd (clean w) in
  index (df w') = index (df w) /\
  map fst (columns (df w')) = map fst (columns (df w)) /\
  (forall c r x, In c numeric_cols ->
     nth_error (column_of c (df w)) r = Some x -> x <> NA ->
     nth_error (column_of c (df w')) r = Some x) /\
  (forall c, ~ In c numeric_cols ->
     get_column c (columns (df w')) = get_column c (columns (df w))).
Proof.
  intros Hwf. unfold clean.
  destruct (fst (impute numeric_cols w)) as [u|e] eqn:Hres.
  - pose proof (impute_Ok_inv _ _ _ Hres) as Hnum.
    rewrite (impute_ok _ _ Hwf Hnum NoDup_numeric_cols).
    cbn [snd df index columns].
    split; [reflexivity|]. split.
    { rewrite map_map. apply map_ext. apply impute_entry_fst. }
    split.
    + intros c r x Hc Hr Hx. rewrite column_of_impute.
      replace (column_of c {| index := index (df w); columns := columns (df w) |})
        with (column_of c (df w)) by reflexivity.
      rewrite (impute_entry_in _ _ _ Hc). simpl.
      now apply nth_error_filled_present.
    + intros c Hc.
      rewrite (get_column_map _ _ _ (impute_entry_fst numeric_cols)).
      destruct (get_column c (columns (df w))) as [s|]; simpl; [|reflexivity].
      now rewrite (impute_entry_out numeric_cols (c, s)).
  - rewrite (impute_raise _ _ _ Hres). simpl. repeat split; auto.
Qed.

Lemma imputation_frame_witness :
  let w' := snd (clean sample_world) in
  index (df w') = index (df sample_world) /\
  map fst (columns (df w')) = map fst (columns (df sample_world)) /\
  (forall c r x, In c numeric_cols ->
     nth_error (column_of c (df sample_world)) r = Some x -> x <> NA ->
     nth_error (column_of c (df w')) r = Some x) /\
  (forall c, ~ In c numeric_cols ->
     get_column c (columns (df w')) = get_column c (columns (df sample_world))).
Proof.
  apply (imputation_frame sample_world). reflexivity.
Defined.

(** C6: a numeric column [10, missing, 30, missing, 50] of a five-row
    table comes out of the imputation as [10, 30, 30, 30, 50]: both
    missing entries hold 30, the median of 10, 30 and 50. *)
Theorem imputation_gap_sample (w : world) (c : string) :
  wf_df (df w) = true ->
  numeric_present numeric_cols (df w) = true ->
  In c numeric_cols ->
  get_column c (columns (df w)) = Some gap_sample ->
  index (df w) = 5%nat /\
  median_of gap_sample = Some (dbl 30) /\
  exists w',
    clean w = (Ok tt, w') /\
    get_column c (columns (df w')) = Some gap_filled.
Proof.
  intros Hwf Hnum Hc Hcol. split; [|split; [vm_compute; reflexivity|]].
  - symmetry. apply (wf_df_length _ (c, gap_sample) Hwf).
    now apply get_column_In.
  - eexists. split.
    + apply (impute_ok _ _ Hwf Hnum NoDup_numeric_cols).
    + cbn [df columns].
      rewrite (get_column_map _ _ _ (impute_entry_fst numeric_cols)), Hcol.
      cbn [option_map]. rewrite (impute_entry_in _ _ _ Hc).
      vm_compute. reflexivity.
Qed.

Lemma imputation_gap_sample_witness :
  index (df sample_world) = 5%nat /\
  median_of gap_sample = Some (dbl 30) /\
  exists w',
    clean sample_world = (Ok tt, w') /\
    get_column "Financial Loss (in Million $)" (columns (df w'))
    = Some gap_filled.
Proof.
  apply (imputation_gap_sample sample_world "Financial Loss (in Million $)").
  - reflexivity.
  - reflexivity.
  - simpl. tauto.
  - reflexivity.
Defined.

(** C10: a numeric column with no observed value at all is left as it
    was by the imputation: every one of its cells is still missing, so
    the column has as many missing values as the table has rows. *)
Theorem imputation_unobserved_column (w : world) (c : string) :
  wf_df (df w) = true ->
  numeric_present numeric_cols (df w) = true ->
  In c numeric_cols ->
  has_observed (column_of c (df w)) = false ->
  exists w',
    clean w = (Ok tt, w') /\
    column_of c (df w') = column_of c (df w) /\
    Forall (fun x => x = NA) (column_of c (df w')) /\
    isnull_sum (column_of c (df w')) = index (df w') /\
    (0 < index (df w') -> isnull_sum (column_of c (df w')) <> 0)%nat.
Proof.
  intros Hwf Hnum Hc Hobs.
  destruct (numeric_present_column_of _ _ _ Hnum Hc) as [Hget Hn].
  assert (Hsame :
    column_of c {| index := index (df w);
                   columns := map (impute_entry numeric_cols) (columns (df w)) |}
    = column_of c (df w)).
  { rewrite column_of_impute.
    replace (column_of c {| index := index (df w); columns := columns (df w) |})
      with (column_of c (df w)) by reflexivity.
    rewrite (impute_entry_in _ _ _ Hc). cbn [snd].
    now rewrite (median_of_unobserved _ Hobs). }
  assert (Hcount : isnull_sum (column_of c (df w)) = index (df w)).
  { rewrite (unobserved_all_missing _ Hn Hobs).
    apply (wf_df_length _ (c, column_of c (df w)) Hwf).
    now apply get_column_In. }
  eexists. split; [apply (impute_ok _ _ Hwf Hnum NoDup_numeric_cols)|].
  cbn [df index]. rewrite Hsame. repeat split.
  - clear Hget Hcount Hsame. revert Hn Hobs.
    induction (column_of c (df w)) as [|x r IH]; simpl; intros Hn Hobs;
      [constructor|].
    destruct x; simpl in *; try discriminate. constructor; auto.
  - exact Hcount.
  - rewrite Hcount. lia.
Qed.

Lemma imputation_unobserved_column_witness :
  exists w',
    clean (mkWorld sample_df_unobserved []) = (Ok tt, w') /\
    column_of "Number of Affected Users" (df w')
    = column_of "Number of Affected Users" sample_df_unobserved /\
    Forall (fun x => x = NA) (column_of "Number of Affected Users" (df w')) /\
    isnull_sum (column_of "Number of Affected Users" (df w')) = index (df w') /\
    (0 < index (df w') ->
     isnull_sum (column_of "Number of Affected Users" (df w')) <> 0)%nat.
Proof.
  apply (imputation_unobserved_column (mkWorld sample_df_unobserved [])
           "Number of Affected Users").
  - reflexivity.
  - reflexivity.
  - simpl. tauto.
  - reflexivity.
Defined.

(** ** Order of the columns *)




Lemma forallb_map_fun {A B} (p : B -> bool) (f : A -> B) l :
  forallb p (map f l) = forallb (fun a => p (f a)) l.
Proof. induction l; simpl; congruence. Qed.

Lemma forallb_pointwise {A} (p q : A -> bool) l :
  (forall a, p a = q a) -> forallb p l = forallb q l.
Proof. intros H. induction l; simpl; congruence. Qed.

Lemma numeric_column_filled v s :
  numeric_column (fillna_scalar v s) = numeric_column s.
Proof.
  destruct v as [m|]; simpl; [|reflexivity].
  unfold numeric_column. rewrite forallb_map_fun.
  apply forallb_pointwise. now intros [].
Qed.

Lemma wf_df_impute keys d :
  wf_df d = true ->
  wf_df (mkDataFrame (index d) (map (impute_entry keys) (columns d))) = true.
Proof.
  unfold wf_df. cbn [index columns]. intros H.
  apply andb_prop in H as [Hn Hl]. apply andb_true_intro. split.
  - rewrite map_map.
    rewrite (map_ext _ fst (impute_entry_fst keys)). exact Hn.
  - rewrite forallb_map_fun. rewrite forallb_forall in *.
    intros kv Hin. specialize (Hl kv Hin).
    unfold impute_entry. destruct (existsb _ keys); [|assumption].
    cbn [snd]. now rewrite fillna_scalar_length.
Qed.

Lemma numeric_present_impute keys keys' d :
  numeric_present keys d = true ->
  numeric_present keys
    (mkDataFrame (index d) (map (impute_entry keys') (columns d))) = true.
Proof.
  unfold numeric_present. rewrite !forallb_forall. intros H k Hk.
  specialize (H k Hk). cbn [columns].
  rewrite (get_column_map _ _ _ (impute_entry_fst keys')).
  destruct (get_column k (columns d)) as [s|]; [|discriminate].
  cbn [option_map]. unfold impute_entry. cbn [fst snd].
  destruct (existsb _ keys'); [|assumption].
  cbn [snd]. now rewrite numeric_column_filled.
Qed.






(** ** The outlier cell *)

Lemma outlier_body_run col w :
  outlier_body col w
  = match rbind (getitem col (df w)) outlier_count with
    | Ok n => print [col; "outliers detected:"; str n] w
    | Raise e => (Raise e, w)
    end.
Proof.
  unfold outlier_body, bind, df_getitem, lift, outlier_count, outlier_mask.
  destruct (getitem col (df w)) as [s|e]; cbn [rbind]; [|reflexivity].
  destruct (quantile (1 # 4) s) as [Q1|e]; cbn [rbind]; [|reflexivity].
  destruct (quantile (3 # 4) s) as [Q3|e]; cbn [rbind]; [|reflexivity].
  destruct (series_lt s _) as [below|e]; cbn [rbind]; [|reflexivity].
  destruct (series_gt s _) as [above|e]; cbn [rbind]; reflexivity.
Qed.

Lemma outlier_loop_run cols w :
  for_each cols outlier_body w
  = (fst (loop_report cols (df w)),
     mkWorld (df w) (stdout w ++ snd (loop_report cols (df w)))).
Proof.
  revert w. induction cols as [|c rest IH]; intros w.
  - cbn [for_each loop_report fst snd]. unfold ret. rewrite app_nil_r.
    now destruct w.
  - cbn [for_each loop_report]. unfold bind. rewrite outlier_body_run.
    destruct (rbind (getitem c (df w)) outlier_count) as [n|e].
    + unfold print. rewrite IH. cbn [df stdout fst snd].
      now rewrite <- app_assoc.
    + cbn [fst snd]. rewrite app_nil_r. now destruct w.
Qed.

Lemma skipn_app_exact {A} (l l' : list A) : skipn (length l) (l ++ l') = l'.
Proof. induction l; simpl; auto. Qed.

(** C3: the outlier cell only reads the table.  Run twice in a row, it
    leaves the table as it found it both times, ends the same way and
    prints the same lines, hence the same count for every column. *)
Theorem outlier_loop_pure (w : world) :
  let w1 := snd (outlier_loop w) in
  let w2 := snd (outlier_loop w1) in
  df w1 = df w /\
  df w2 = df w /\
  fst (outlier_loop w1) = fst (outlier_loop w) /\
  output_of outlier_loop w1 = output_of outlier_loop w.
Proof.
  unfold outlier_loop, output_of. cbn zeta.
  rewrite !outlier_loop_run. cbn [fst snd df stdout].
  rewrite !skipn_app_exact. repeat split.
Qed.

Lemma outlier_row_fences q1 q3 c :
  outlier_row q1 q3 c
  = match c with
    | Num v => f_lt (Some v) (lower_fence q1 q3)
               || f_gt (Some v) (upper_fence q1 q3)
    | _ => false
    end.
Proof.
  destruct c as [|v|t]; cbn [outlier_row]; try reflexivity.
  unfold f_gt.
  destruct (tukey_outlier_dec q1 q3 v) as [H|H].
  - symmetry. apply orb_true_iff. exact H.
  - symmetry. apply orb_false_iff. split.
    + destruct (f_lt (Some v) _) eqn:E; [|reflexivity].
      exfalso. apply H. now left.
    + destruct (f_lt _ (Some v)) eqn:E; [|reflexivity].
      exfalso. apply H. now right.
Qed.

Lemma nan_fences lo hi : f_lt NaN lo || f_gt NaN hi = false.
Proof. unfold f_gt. now rewrite f_lt_NaN_l, f_lt_NaN_r. Qed.

Lemma mask_sum_fences lo hi s :
  mask_sum (mask_or (map (fun x => f_lt x lo) (floats s))
                    (map (fun x => f_gt x hi) (floats s)))
  = length (filter (fun c => match c with
                             | Num v => f_lt (Some v) lo || f_gt (Some v) hi
                             | _ => false
                             end) s).
Proof.
  unfold mask_or, mask_sum, floats.
  induction s as [|c r IH]; [reflexivity|].
  cbn [map combine fold_right filter fst snd].
  destruct c as [|v|t].
  - rewrite nan_fences. exact IH.
  - destruct (f_lt (Some v) lo || f_gt (Some v) hi); cbn [length];
      now rewrite IH.
  - rewrite nan_fences. exact IH.
Qed.

Lemma quantile_quarter s :
  quantile (1 # 4) s = rbind (to_numeric s) (fun xs => Ok (nanquantile (1 # 4) xs)).
Proof. reflexivity. Qed.

Lemma quantile_three_quarters s :
  quantile (3 # 4) s = rbind (to_numeric s) (fun xs => Ok (nanquantile (3 # 4) xs)).
Proof. reflexivity. Qed.

(** On a column of numbers and missing values, the count computed by the
    cell is the number of rows outside the fences drawn from the
    quartiles of the column. *)
Lemma outlier_count_rows s :
  numeric_column s = true -> outlier_count s = Ok (quartile_count s).
Proof.
  intros Hn.
  unfold outlier_count, outlier_mask, series_lt, series_gt.
  rewrite quantile_quarter, quantile_three_quarters.
  rewrite (to_numeric_floats _ Hn). cbn [rbind].
  rewrite mask_sum_fences. f_equal.
  unfold quartile_count, outlier_rows, first_quartile, third_quartile.
  f_equal. apply filter_ext. intros c. now rewrite outlier_row_fences.
Qed.

(** The quartiles the count is taken with are the quartiles of the
    observed values of the column. *)
Lemma quartile_count_spec d c : tukey_count d c (quartile_count (column_of c d)).
Proof.
  exists (first_quartile (column_of c d)), (third_quartile (column_of c d)).
  split; [apply nanquantile_is_quantile|].
  split; [apply nanquantile_is_quantile|reflexivity].
Qed.

Lemma loop_report_numeric cols d :
  numeric_present cols d = true ->
  loop_report cols d
  = (Ok tt, map (fun c => outlier_line c (quartile_count (column_of c d))) cols).
Proof.
  induction cols as [|c rest IH]; intros H; [reflexivity|].
  destruct (numeric_present_column_of _ _ _ H (or_introl eq_refl)) as [Hg Hn].
  apply numeric_present_cons in H as [_ H].
  cbn [loop_report map]. unfold getitem. rewrite Hg. cbn [rbind].
  rewrite (outlier_count_rows _ Hn), (IH H). reflexivity.
Qed.

Lemma outlier_count_Ok_inv s n :
  outlier_count s = Ok n -> numeric_column s = true.
Proof.
  destruct (numeric_column s) eqn:E; [reflexivity|].
  unfold outlier_count, outlier_mask. rewrite quantile_quarter.
  rewrite (to_numeric_text _ E). discriminate.
Qed.

(** Whatever the table, the lines the loop prints are those of the
    columns it got through, each with the count of the specification. *)
Lemma loop_report_prefix cols d :
  exists k,
    snd (loop_report cols d)
    = map (fun c => outlier_line c (quartile_count (column_of c d)))
          (firstn k cols).
Proof.
  induction cols as [|c rest [k IH]]; [now exists 0%nat|].
  cbn [loop_report]. unfold getitem.
  destruct (get_column c (columns d)) as [s|] eqn:Hg; cbn [rbind];
    [|now exists 0%nat].
  destruct (outlier_count s) as [n|e] eqn:Hc; [|now exists 0%nat].
  exists (S k). cbn [snd firstn map]. rewrite IH. f_equal.
  unfold column_of. rewrite Hg.
  rewrite (outlier_count_rows _ (outlier_count_Ok_inv _ _ Hc)) in Hc.
  now injection Hc as <-.
Qed.

(** C4: the outlier count the cell prints for a column is the number of
    rows whose value is strictly below Q1 - 1.5 IQR or strictly above
    Q3 + 1.5 IQR, with Q1 and Q3 the quartiles of the column, IQR their
    difference, and the quartiles, the difference and the fences all
    computed in double precision.  This holds of every line printed, on
    any table; when the three numeric columns are there and numeric,
    the cell completes and prints the line of each of them. *)
Theorem outlier_loop_counts (w : world) :
  exists count : string -> nat,
    (forall c, tukey_count (df w) c (count c)) /\
    (exists k,
       output_of outlier_loop w
       = map (fun c => outlier_line c (count c)) (firstn k numeric_cols)) /\
    (numeric_present numeric_cols (df w) = true ->
     outlier_loop w
     = (Ok tt,
        mkWorld (df w)
          (stdout w ++ map (fun c => outlier_line c (count c)) numeric_cols))).
Proof.
  exists (fun c => quartile_count (column_of c (df w))).
  split; [intros c; apply quartile_count_spec|].
  unfold outlier_loop, output_of. rewrite outlier_loop_run. split.
  - cbn [snd stdout]. rewrite skipn_app_exact. apply loop_report_prefix.
  - intros Hnum. now rewrite (loop_report_numeric _ _ Hnum).
Qed.

Lemma outlier_loop_counts_witness :
  exists count : string -> nat,
    (forall c, tukey_count (df outlier_world) c (count c)) /\
    outlier_loop outlier_world
    = (Ok tt,
       mkWorld outlier_df
         (map (fun c => outlier_line c (count c)) numeric_cols)) /\
    stdout (snd (outlier_loop outlier_world))
    = [ "Financial Loss (in Million $) outliers detected: 1";
        "Number of Affected Users outliers detected: 1";
        "Incident Resolution Time (in Hours) outliers detected: 0" ].
Proof.
  destruct (outlier_loop_counts outlier_world) as (count & Hc & _ & Hrun).
  exists count. split; [exact Hc|]. split.
  - apply Hrun. reflexivity.
  - vm_compute. reflexivity.
Defined.

(** With the fences read as exact numbers, C4 fails.  Of the values
    0.1, 0.1, 0.7, 1.3 and 3.1 none lies outside the exact fences, the
    largest being just below the upper one, yet the cell counts one
    outlier: in double precision the upper fence
    [1.3 + 1.5 * (1.3 - 0.1)] comes out below 3.1. *)
Lemma outlier_loop_counts_counterexample :
  output_of outlier_loop outlier_world
  = [ "Financial Loss (in Million $) outliers detected: 1";
      "Number of Affected Users outliers detected: 1";
      "Incident Resolution Time (in Hours) outliers detected: 0" ] /\
  column_of "Number of Affected Users" (df outlier_world) = fence_sample ++ [NA] /\
  exact_outlier_rows (fence_sample ++ [NA]) = 0%nat /\
  outlier_count fence_sample = Ok 1%nat /\
  exact_outlier_rows fence_sample = 0%nat.
Proof. repeat split; vm_compute; reflexivity. Qed.

(** The count in the words of the specification is the number of rows
    that hold a value satisfying [tukey_outlier]. *)
Lemma outlier_row_spec q1 q3 c :
  outlier_row q1 q3 c = true <-> exists v, c = Num v /\ tukey_outlier q1 q3 v.
Proof.
  destruct c as [|v|t]; cbn [outlier_row].
  - split; [discriminate|]. intros (v & H & _). discriminate.
  - destruct (tukey_outlier_dec q1 q3 v) as [H|H].
    + split; [|reflexivity]. intros _. now exists v.
    + split; [discriminate|]. intros (v' & [= <-] & H'). contradiction.
  - split; [discriminate|]. intros (v & H & _). discriminate.
Qed.

(** C5: on the column 1, 2, 3, 4, 5, 100 the quartiles are 2.25 and
    4.75, their difference is 2.5, the upper fence is 8.5, and the row
    holding 100 is the only one counted as an outlier. *)
Theorem quartile_sample_outliers :
  exists q1 q3 iqr fence : double,
    quantile (1 # 4) quartile_sample = Ok (Some q1) /\
    quantile (3 # 4) quartile_sample = Ok (Some q3) /\
    (d_value q1 == 225 # 100)%Q /\
    (d_value q3 == 475 # 100)%Q /\
    f_sub (Some q3) (Some q1) = Some iqr /\
    (d_value iqr == 25 # 10)%Q /\
    upper_fence (Some q1) (Some q3) = Some fence /\
    (d_value fence == 85 # 10)%Q /\
    outlier_mask quartile_sample
    = Ok [false; false; false; false; false; true] /\
    outlier_count quartile_sample = Ok 1%nat /\
    map (outlier_row (Some q1) (Some q3)) quartile_sample
    = [false; false; false; false; false; true].
Proof.
  eexists. eexists. eexists. eexists.
  split; [vm_compute; reflexivity|].
  split; [vm_compute; reflexivity|].
  split; [vm_compute; reflexivity|].
  split; [vm_compute; reflexivity|].
  split; [vm_compute; reflexivity|].
  split; [vm_compute; reflexivity|].
  split; [vm_compute; reflexivity|].
  split; [vm_compute; reflexivity|].
  split; [vm_compute; reflexivity|].
  split; vm_compute; reflexivity.
Qed.

(** C9: the conclusions printed by the last cell are one fixed text,
    whatever table and whatever earlier output the cell starts from. *)
Theorem conclusions_constant (w1 w2 : world) :
  output_of print_conclusions w1 = [conclusions] /\
  output_of print_conclusions w2 = output_of print_conclusions w1 /\
  df (snd (print_conclusions w1)) = df w1.
Proof.
  unfold output_of, print_conclusions, print. cbn [snd stdout df].
  rewrite !skipn_app_exact. repeat split.
Qed.

(** ** Loading *)

Section LoaderFacts.

Variable infer_column : list (option string) -> Series.

Lemma parse_columns_names j header records :
  map fst (parse_columns infer_column j header records) = header.
Proof.
  revert j. induction header as [|h rest IH]; intros j; simpl;
    [reflexivity|]. now rewrite IH.
Qed.

Lemma get_column_parse name j0 header records :
  get_column name (parse_columns infer_column j0 header records)
  = option_map
      (fun j => infer_column (map (fun r => nth_error r (j0 + j)) records))
      (field_position name header).
Proof.
  revert j0. induction header as [|h rest IH]; intros j0; simpl;
    [reflexivity|].
  destruct (String.eqb name h).
  - simpl. now rewrite Nat.add_0_r.
  - rewrite IH. destruct (field_position name rest) as [j|]; simpl;
      [|reflexivity].
    now rewrite Nat.add_succ_r.
Qed.

Lemma read_csv_rows fs path d :
  read_csv infer_column fs path = Ok d ->
  exists header records,
    fs path = Some (header :: records) /\
    index d = length records /\
    map fst (columns d) = header.
Proof.
  unfold read_csv.
  destruct (fs path) as [[|header records]|]; try discriminate.
  destruct (existsb _ records); [discriminate|].
  intros [= <-]. exists header, records. cbn [index columns].
  split; [reflexivity|]. split; [reflexivity|apply parse_columns_names].
Qed.

End LoaderFacts.





(** * Further properties of the script *)

From Stdlib Require Import ZifyNat.

(** ** Outcomes of the imputation statement *)

Lemma select_None_iff keys cols :
  select keys cols = None
  <-> existsb (fun k => match get_column k cols with
                        | Some _ => false
                        | None => true
                        end) keys = true.
Proof.
  induction keys as [|k ks IH]; simpl.
  - split; discriminate.
  - destruct (get_column k cols) as [s|]; simpl.
    + destruct (select ks cols) as [r|].
      * split; [discriminate|]. intros H. apply IH in H. discriminate.
      * split; [|reflexivity]. intros _. now apply IH.
    + split; reflexivity.
Qed.

Lemma rmap_to_numeric_raise (cols : list (string * Series)) e :
  rmap (fun kc => rbind (to_numeric (snd kc))
                        (fun xs => Ok (fst kc, nanmedian xs))) cols = Raise e ->
  e = TypeError.
Proof.
  induction cols as [|[k s] rest IH]; simpl; [discriminate|].
  destruct (numeric_column s) eqn:Hs.
  - rewrite (to_numeric_floats _ Hs). simpl.
    destruct (rmap _ rest) as [m|e']; simpl; [discriminate|].
    intros [= <-]. now apply IH.
  - rewrite (to_numeric_text _ Hs). simpl. now intros [= <-].
Qed.

Lemma impute_completes keys w :
  numeric_present keys (df w) = true -> fst (impute keys w) = Ok tt.
Proof.
  intros Hnum.
  unfold impute, bind, df_getitem_list, getitem_list, lift, df_setitem_list.
  now rewrite (select_present _ _ Hnum), (median_numeric _ _ _ Hnum).
Qed.

Lemma absent_filter_nil keys d :
  filter (fun k => negb (has_column k d)) keys = [] ->
  existsb (fun k => match get_column k (columns d) with
                    | Some _ => false
                    | None => true
                    end) keys = false.
Proof.
  unfold has_column.
  induction keys as [|k ks IH]; simpl; [reflexivity|].
  destruct (get_column k (columns d)); simpl; [exact IH|discriminate].
Qed.

Lemma absent_filter_cons keys d k ks :
  filter (fun k => negb (has_column k d)) keys = k :: ks ->
  existsb (fun k => match get_column k (columns d) with
                    | Some _ => false
                    | None => true
                    end) keys = true.
Proof.
  unfold has_column.
  induction keys as [|k0 ks0 IH]; simpl; [discriminate|].
  destruct (get_column k0 (columns d)); simpl; [exact IH|reflexivity].
Qed.

Lemma impute_absent keys w k ks :
  filter (fun k => negb (has_column k (df w))) keys = k :: ks ->
  impute keys w = (Raise (KeyError (k :: ks)), w).
Proof.
  intros Hmiss. unfold impute, bind, df_getitem_list, getitem_list.
  pose proof (absent_filter_cons _ _ _ _ Hmiss) as Hex.
  apply select_None_iff in Hex. rewrite Hex. now rewrite Hmiss.
Qed.

Lemma impute_text keys w :
  filter (fun k => negb (has_column k (df w))) keys = [] ->
  numeric_present keys (df w) = false ->
  impute keys w = (Raise TypeError, w).
Proof.
  intros Hmiss Hnum.
  destruct (impute keys w) as [r w'] eqn:Hrun.
  destruct r as [u|e].
  - pose proof (impute_Ok_inv keys w u) as H.
    rewrite Hrun in H. specialize (H eq_refl). congruence.
  - pose proof (impute_raise keys w e) as Hw.
    rewrite Hrun in Hw. cbn [fst snd] in Hw. rewrite (Hw eq_refl).
    f_equal. f_equal. revert Hrun.
    unfold impute, bind, df_getitem_list, getitem_list, lift,
      df_setitem_list.
    destruct (select keys (columns (df w))) as [r|] eqn:Hsel.
    + destruct (median _) as [med|e'] eqn:Hmed; [discriminate|].
      intros [= <- _]. unfold median in Hmed.
      now apply rmap_to_numeric_raise in Hmed.
    + apply select_None_iff in Hsel.
      rewrite (absent_filter_nil _ _ Hmiss) in Hsel. discriminate.
Qed.

(** X1: how the cleaning cell ends.  When one of the three numeric
    columns is absent it raises [KeyError] with the absent labels, in
    the order of [numeric_cols]; when all are there but one holds text
    it raises [TypeError]; in both cases the table and the output are
    untouched.  Otherwise it completes. *)
Theorem clean_outcome (w : world) :
  match filter (fun k => negb (has_column k (df w))) numeric_cols with
  | k :: ks => clean w = (Raise (KeyError (k :: ks)), w)
  | [] =>
      if numeric_present numeric_cols (df w)
      then fst (clean w) = Ok tt
      else clean w = (Raise TypeError, w)
  end.
Proof.
  unfold clean.
  destruct (filter _ numeric_cols) as [|k ks] eqn:Hmiss.
  - destruct (numeric_present numeric_cols (df w)) eqn:Hnum.
    + now apply impute_completes.
    + now apply impute_text.
  - now apply impute_absent.
Qed.

(** ** Running the cleaning cell again *)

Lemma fillna_scalar_no_missing v s :
  isnull_sum s = 0%nat -> fillna_scalar v s = s.
Proof.
  destruct v as [m|]; [|reflexivity]. unfold isnull_sum. simpl.
  induction s as [|c r IH]; simpl; [reflexivity|].
  destruct c; simpl; try discriminate; intros H; now rewrite IH.
Qed.

Lemma impute_entry_idempotent keys kv :
  impute_entry keys (impute_entry keys kv) = impute_entry keys kv.
Proof.
  unfold impute_entry at 2.
  destruct (existsb (String.eqb (fst kv)) keys) eqn:E; unfold impute_entry.
  - cbn [fst snd]. rewrite E. f_equal.
    destruct (median_of (snd kv)) as [m|] eqn:Hm.
    + apply fillna_scalar_no_missing, isnull_sum_filled.
    + cbn [fillna_scalar]. now rewrite Hm.
  - now rewrite E.
Qed.

(** X2: the cleaning cell is idempotent.  Running it a second time
    changes nothing: the filled columns have no missing cell left, and a
    column that could not be filled still has no observed value. *)
Theorem clean_idempotent (w : world) :
  wf_df (df w) = true ->
  (clean ;;; clean) w = clean w.
Proof.
  intros Hwf. unfold bind, clean.
  destruct (fst (impute numeric_cols w)) as [u|e] eqn:Hres.
  - pose proof (impute_Ok_inv _ _ _ Hres) as Hnum.
    rewrite (impute_ok _ _ Hwf Hnum NoDup_numeric_cols).
    rewrite impute_ok; cbn [df stdout index columns].
    + rewrite map_map.
      now rewrite (map_ext _ _ (impute_entry_idempotent numeric_cols)).
    + now apply wf_df_impute.
    + now apply numeric_present_impute.
    + exact NoDup_numeric_cols.
  - destruct (impute numeric_cols w) as [r w']. cbn [fst] in Hres.
    now subst r.
Qed.

Lemma clean_idempotent_witness :
  (clean ;;; clean) sample_world = clean sample_world.
Proof.
  apply (clean_idempotent sample_world). reflexivity.
Defined.

(** X3: the cleaning cell keeps the table invariant, however it ends,
    keeps the listed columns numeric, and writes nothing to the
    output. *)
Theorem clean_keeps_invariant (w : world) :
  wf_df (df w) = true ->
  wf_df (df (snd (clean w))) = true /\
  stdout (snd (clean w)) = stdout w /\
  numeric_present numeric_cols (df (snd (clean w)))
  = numeric_present numeric_cols (df w).
Proof.
  intros Hwf. unfold clean.
  destruct (fst (impute numeric_cols w)) as [u|e] eqn:Hres.
  - pose proof (impute_Ok_inv _ _ _ Hres) as Hnum.
    rewrite (impute_ok _ _ Hwf Hnum NoDup_numeric_cols). cbn [snd df stdout].
    split; [now apply wf_df_impute|]. split; [reflexivity|].
    rewrite Hnum. now apply numeric_present_impute.
  - rewrite (impute_raise _ _ _ Hres). auto.
Qed.

Lemma clean_keeps_invariant_witness :
  wf_df (df (snd (clean sample_world))) = true /\
  stdout (snd (clean sample_world)) = stdout sample_world /\
  numeric_present numeric_cols (df (snd (clean sample_world)))
  = numeric_present numeric_cols (df sample_world).
Proof.
  apply (clean_keeps_invariant sample_world). reflexivity.
Defined.

(** ** Sorting by a boolean order *)

Lemma insert_by_perm {A} (leb : A -> A -> bool) x l :
  Permutation (x :: l) (insert_by leb x l).
Proof.
  induction l as [|y r IH]; simpl; [apply Permutation_refl|].
  destruct (leb x y); [apply Permutation_refl|].
  eapply perm_trans; [apply perm_swap|]. now apply perm_skip.
Qed.

Lemma sort_by_perm {A} (leb : A -> A -> bool) l :
  Permutation l (sort_by leb l).
Proof.
  induction l as [|x r IH]; simpl; [constructor|].
  eapply perm_trans; [apply perm_skip, IH|]. apply insert_by_perm.
Qed.

Lemma insert_by_sorted {A} (leb : A -> A -> bool) x l :
  (forall a b, leb a b = false -> leb b a = true) ->
  Sorted (fun a b => leb a b = true) l ->
  Sorted (fun a b => leb a b = true) (insert_by leb x l).
Proof.
  intros Htot. induction l as [|y r IH]; simpl; intros Hs.
  - repeat constructor.
  - destruct (leb x y) eqn:E.
    + constructor; [assumption|]. now constructor.
    + inversion Hs as [|? ? Hr Hhd]; subst.
      constructor; [now apply IH|].
      destruct r as [|z r']; simpl.
      * constructor. now apply Htot.
      * destruct (leb x z); constructor; [now apply Htot|].
        now inversion Hhd.
Qed.

Lemma sort_by_sorted {A} (leb : A -> A -> bool) l :
  (forall a b, leb a b = false -> leb b a = true) ->
  Sorted (fun a b => leb a b = true) (sort_by leb l).
Proof.
  intros Htot. induction l as [|x r IH]; simpl; [constructor|].
  now apply insert_by_sorted.
Qed.



(** ** Equality of cells *)

Lemma cell_eqb_refl c : cell_eqb c c = true.
Proof.
  destruct c; simpl; [reflexivity|apply d_eqb_refl|apply String.eqb_refl].
Qed.

Lemma cell_eqb_sym a b : cell_eqb a b = cell_eqb b a.
Proof.
  destruct a, b; simpl; try reflexivity.
  - apply d_eqb_sym.
  - apply String.eqb_sym.
Qed.

Lemma cell_eqb_trans a b c :
  cell_eqb a b = true -> cell_eqb b c = true -> cell_eqb a c = true.
Proof.
  destruct a, b, c; simpl; try discriminate; try reflexivity.
  - apply d_eqb_trans.
  - rewrite !String.eqb_eq. congruence.
Qed.

Lemma cell_eqb_false_r a b c :
  cell_eqb a b = true -> cell_eqb a c = false -> cell_eqb b c = false.
Proof.
  intros Hab Hac. destruct (cell_eqb b c) eqn:E; [|reflexivity].
  now rewrite (cell_eqb_trans _ _ _ Hab E) in Hac.
Qed.

(** ** Frequency tables *)

Lemma total_count_add c acc : total_count (count_add c acc) = S (total_count acc).
Proof.
  induction acc as [|[k n] rest IH]; simpl; [reflexivity|].
  destruct (cell_eqb c k); simpl; [reflexivity|]. rewrite IH. lia.
Qed.

Lemma tally_snoc s c :
  tally (s ++ [c]) = if isnull c then tally s else count_add c (tally s).
Proof. unfold tally. now rewrite fold_left_app. Qed.

Lemma occurrences_snoc k s c :
  occurrences k (s ++ [c])
  = (occurrences k s + if cell_eqb c k then 1 else 0)%nat.
Proof.
  unfold occurrences. rewrite filter_app, length_app. simpl.
  now destruct (cell_eqb c k).
Qed.

Lemma total_count_tally s :
  (total_count (tally s) + isnull_sum s = length s)%nat.
Proof.
  induction s as [|c IH] using rev_ind; [reflexivity|].
  rewrite tally_snoc, length_app. unfold isnull_sum in *.
  rewrite filter_app, length_app. simpl.
  destruct (isnull c); simpl; [lia|]. rewrite total_count_add. lia.
Qed.

Lemma In_count_add c acc k n :
  distinct_keys acc ->
  In (k, n) (count_add c acc) ->
  (cell_eqb c k = false /\ In (k, n) acc)
  \/ (cell_eqb c k = true /\ exists n', n = S n' /\ In (k, n') acc)
  \/ (k = c /\ n = 1%nat
      /\ Forall (fun e => cell_eqb c (fst e) = false) acc).
Proof.
  induction acc as [|[k0 n0] rest IH]; simpl; intros Hd Hin.
  - destruct Hin as [[= <- <-]|[]]. right. right. repeat split. constructor.
  - destruct Hd as [Hfa Hd].
    destruct (cell_eqb c k0) eqn:E.
    + destruct Hin as [[= <- <-]|Hin].
      * right. left. split; [assumption|]. exists n0. split; auto.
      * left. split; [|now right].
        rewrite Forall_forall in Hfa. specialize (Hfa _ Hin). simpl in Hfa.
        apply (cell_eqb_false_r k0 c k); [|assumption].
        now rewrite cell_eqb_sym.
    + destruct Hin as [[= <- <-]|Hin].
      * left. split; [assumption|now left].
      * destruct (IH Hd Hin) as [[H1 H2]|[[H1 (n' & H2 & H3)]|(H1 & H2 & H3)]].
        -- left. split; [assumption|now right].
        -- right. left. split; [assumption|]. exists n'. split; auto.
        -- right. right. repeat split; auto.
Qed.

Lemma count_add_keys c acc e :
  In e (count_add c acc) ->
  (exists e', In e' acc /\ fst e' = fst e) \/ fst e = c.
Proof.
  induction acc as [|[k0 n0] rest IH]; simpl.
  - intros [<-|[]]. now right.
  - destruct (cell_eqb c k0).
    + intros [<-|Hin]; left.
      * exists (k0, n0). split; [now left|reflexivity].
      * exists e. split; [now right|reflexivity].
    + intros [<-|Hin].
      * left. exists (k0, n0). split; [now left|reflexivity].
      * destruct (IH Hin) as [(e' & H1 & H2)|H]; [left|now right].
        exists e'. split; [now right|assumption].
Qed.

Lemma distinct_count_add c acc :
  distinct_keys acc -> distinct_keys (count_add c acc).
Proof.
  induction acc as [|[k0 n0] rest IH]; simpl; intros Hd.
  - split; [constructor|exact I].
  - destruct Hd as [Hfa Hd]. destruct (cell_eqb c k0) eqn:E; simpl.
    + split; assumption.
    + split; [|now apply IH].
      apply Forall_forall. intros e Hin.
      destruct (count_add_keys _ _ _ Hin) as [(e' & H1 & H2)|H].
      * rewrite <- H2. rewrite Forall_forall in Hfa. now apply Hfa.
      * rewrite H. now rewrite cell_eqb_sym.
Qed.

Lemma count_add_covers c acc :
  exists e, In e (count_add c acc) /\ cell_eqb c (fst e) = true.
Proof.
  induction acc as [|[k0 n0] rest [e [H1 H2]]]; simpl.
  - exists (c, 1%nat). split; [now left|apply cell_eqb_refl].
  - destruct (cell_eqb c k0) eqn:E.
    + exists (k0, S n0). split; [now left|assumption].
    + exists e. split; [now right|assumption].
Qed.

Lemma count_add_keeps c acc e :
  In e acc -> exists e', In e' (count_add c acc) /\ fst e' = fst e.
Proof.
  induction acc as [|[k0 n0] rest IH]; simpl; [tauto|].
  intros [<-|Hin].
  - destruct (cell_eqb c k0).
    + exists (k0, S n0). split; [now left|reflexivity].
    + exists (k0, n0). split; [now left|reflexivity].
  - destruct (cell_eqb c k0).
    + exists e. split; [now right|reflexivity].
    + destruct (IH Hin) as (e' & H1 & H2). exists e'. split; [now right|auto].
Qed.

(** The table of counts built from a column: distinct values, each with
    the number of its occurrences, and every value of the column in it. *)
Lemma tally_spec s :
  distinct_keys (tally s)
  /\ (forall k n, In (k, n) (tally s) ->
        k <> NA /\ n = occurrences k s /\ (1 <= n)%nat)
  /\ (forall c, In c s -> c <> NA ->
        exists e, In e (tally s) /\ cell_eqb c (fst e) = true).
Proof.
  induction s as [|c s IH] using rev_ind.
  - split; [exact I|]. split; [intros k n []|intros c []].
  - destruct IH as (Hd & Hcnt & Hcov). rewrite tally_snoc.
    destruct (isnull c) eqn:Hnull.
    + assert (c = NA) as -> by (now destruct c).
      split; [assumption|]. split.
      * intros k n Hin. destruct (Hcnt k n Hin) as (Hk & Hn & Hpos).
        repeat split; auto. rewrite occurrences_snoc.
        destruct k; simpl; try lia. congruence.
      * intros c Hin Hc. apply in_app_or in Hin as [Hin|[<-|[]]]; [|congruence].
        now apply Hcov.
    + split; [now apply distinct_count_add|]. split.
      * intros k n Hin. rewrite occurrences_snoc.
        destruct (In_count_add _ _ _ _ Hd Hin)
          as [[H1 H2]|[[H1 (n' & -> & H3)]|(-> & -> & H3)]].
        -- rewrite H1. destruct (Hcnt k n H2) as (Hk & Hn & Hpos).
           repeat split; auto. lia.
        -- rewrite H1. destruct (Hcnt k n' H3) as (Hk & Hn & Hpos).
           repeat split; auto; lia.
        -- rewrite cell_eqb_refl.
           split; [intros ->; discriminate|]. split; [|lia].
           replace (occurrences c s) with 0%nat; [reflexivity|].
           symmetry. unfold occurrences. apply length_zero_iff_nil.
           destruct (filter _ s) as [|c' r] eqn:Ef; [reflexivity|].
           assert (Hc' : In c' (filter (fun c0 => cell_eqb c0 c) s))
             by (rewrite Ef; now left).
           apply filter_In in Hc' as [Hin' Heq].
           assert (Hna : c' <> NA).
           { intros ->. destruct c; discriminate. }
           destruct (Hcov c' Hin' Hna) as (e & He & Hce).
           rewrite Forall_forall in H3. specialize (H3 e He).
           rewrite cell_eqb_sym in Heq.
           now rewrite (cell_eqb_trans _ _ _ Heq Hce) in H3.
      * intros c0 Hin Hc. apply in_app_or in Hin as [Hin|[<-|[]]].
        -- destruct (Hcov c0 Hin Hc) as (e & He & Hce).
           destruct (count_add_keeps c _ _ He) as (e' & He' & Hk).
           exists e'. split; [assumption|]. now rewrite Hk.
        -- apply count_add_covers.
Qed.

Lemma tally_keys_In s e : In e (tally s) -> In (fst e) s.
Proof.
  revert e. induction s as [|c s IH] using rev_ind; intros e; [intros []|].
  rewrite tally_snoc. destruct (isnull c).
  - intros H. apply in_or_app. left. now apply IH.
  - intros H. apply in_or_app.
    destruct (count_add_keys _ _ _ H) as [(e' & H1 & H2)|H1].
    + left. rewrite <- H2. now apply IH.
    + right. left. now symmetry.
Qed.

Lemma distinct_keys_perm {A} (l l' : list (cell * A)) :
  Permutation l l' -> distinct_keys l -> distinct_keys l'.
Proof.
  induction 1 as [|x l l' HP IH|x y l|l l' l'' HP1 IH1 HP2 IH2]; simpl.
  - auto.
  - intros [Hfa Hd]. split; [|now apply IH].
    now apply (Permutation_Forall HP).
  - intros [Hy [Hx Hd]]. inversion Hy as [|? ? Hyx Hyl]; subst.
    repeat split; auto. constructor; [|assumption].
    now rewrite cell_eqb_sym.
  - auto.
Qed.

Lemma total_count_perm l l' :
  Permutation l l' -> total_count l = total_count l'.
Proof. induction 1; simpl; lia. Qed.

Lemma occurrences_eqb k k' s :
  cell_eqb k k' = true -> occurrences k s = occurrences k' s.
Proof.
  intros H. unfold occurrences. f_equal. apply filter_ext. intros c.
  apply Bool.eq_iff_eq_true. split; intros Hc.
  - now apply (cell_eqb_trans _ _ _ Hc).
  - rewrite cell_eqb_sym in H. now apply (cell_eqb_trans _ _ _ Hc).
Qed.

Lemma count_geb_total a b : count_geb a b = false -> count_geb b a = true.
Proof.
  unfold count_geb. rewrite Nat.leb_gt, Nat.leb_le. lia.
Qed.

Lemma value_counts_sorted s :
  StronglySorted (fun a b => (snd b <= snd a)%nat) (value_counts s).
Proof.
  apply Sorted_StronglySorted.
  - intros a b c Hab Hbc. lia.
  - pose proof (sort_by_sorted count_geb (tally s) count_geb_total) as H.
    unfold value_counts.
    induction H as [|a l Hl IH Hhd]; constructor; auto.
    destruct Hhd as [|b l' Hab]; constructor.
    now apply Nat.leb_le.
Qed.

Lemma value_counts_perm s : Permutation (tally s) (value_counts s).
Proof. apply sort_by_perm. Qed.

Lemma value_counts_distinct s : distinct_keys (value_counts s).
Proof.
  apply (distinct_keys_perm _ _ (value_counts_perm s)).
  now destruct (tally_spec s).
Qed.

Lemma value_counts_entry s k n :
  In (k, n) (value_counts s) ->
  k <> NA /\ In k s /\ n = occurrences k s /\ (1 <= n)%nat.
Proof.
  intros Hin.
  apply (Permutation_in _ (Permutation_sym (value_counts_perm s))) in Hin.
  destruct (tally_spec s) as (_ & Hcnt & _).
  destruct (Hcnt k n Hin) as (H1 & H2 & H3). repeat split; auto.
  apply (tally_keys_In s (k, n) Hin).
Qed.

Lemma value_counts_covers s c :
  In c s -> c <> NA ->
  exists e, In e (value_counts s) /\ cell_eqb c (fst e) = true.
Proof.
  intros Hin Hc. destruct (tally_spec s) as (_ & _ & Hcov).
  destruct (Hcov c Hin Hc) as (e & He & Hce).
  exists e. split; [|assumption].
  now apply (Permutation_in _ (value_counts_perm s)).
Qed.

Lemma value_counts_total s :
  (total_count (value_counts s) + isnull_sum s = length s)%nat.
Proof.
  rewrite <- (total_count_perm _ _ (value_counts_perm s)).
  apply total_count_tally.
Qed.

(** X4: [value_counts] gives every value of the column that is not
    missing exactly once, with the number of rows holding it; the counts
    never increase down the table and add up to the number of rows that
    are not missing. *)
Theorem value_counts_spec (s : Series) :
  distinct_keys (value_counts s) /\
  (forall k n, In (k, n) (value_counts s) ->
     k <> NA /\ In k s /\ n = occurrences k s /\ (1 <= n)%nat) /\
  (forall c, In c s -> c <> NA ->
     exists e, In e (value_counts s) /\ cell_eqb c (fst e) = true) /\
  (total_count (value_counts s) + isnull_sum s = length s)%nat /\
  StronglySorted (fun a b => (snd b <= snd a)%nat) (value_counts s).
Proof.
  split; [apply value_counts_distinct|].
  split; [intros k n; apply value_counts_entry|].
  split; [intros c; apply value_counts_covers|].
  split; [apply value_counts_total|apply value_counts_sorted].
Qed.

Lemma StronglySorted_split {A} (R : A -> A -> Prop) n l :
  StronglySorted R l ->
  forall a b, In a (firstn n l) -> In b (skipn n l) -> R a b.
Proof.
  intros Hs. revert n. induction Hs as [|x l Hs IH Hfa]; intros n a b.
  - rewrite firstn_nil. intros [].
  - destruct n as [|n]; simpl; [intros []|].
    intros [<-|Ha] Hb.
    + rewrite Forall_forall in Hfa. apply Hfa.
      rewrite <- (firstn_skipn n l). apply in_or_app. now right.
    + now apply (IH n).
Qed.

Lemma In_firstn {A} n (l : list A) x : In x (firstn n l) -> In x l.
Proof.
  intros H. rewrite <- (firstn_skipn n l). apply in_or_app. now left.
Qed.

Lemma In_skipn {A} n (l : list A) x : In x (skipn n l) -> In x l.
Proof.
  intros H. rewrite <- (firstn_skipn n l). apply in_or_app. now right.
Qed.

(** X5: the chart of the most affected countries shows at most ten
    countries, each with the number of its rows, and no country left out
    has more rows than a country shown.  Without a [Country] column the
    cell raises [KeyError]. *)
Theorem top_countries_spec (w : world) :
  match get_column "Country" (columns (df w)) with
  | None => top_countries w = (Raise (KeyError ["Country"]), w)
  | Some s =>
      exists top,
        top_countries w = (Ok top, w) /\
        (length top <= 10)%nat /\
        (forall k n, In (k, n) top -> k <> NA /\ n = occurrences k s) /\
        (forall c, In c s -> c <> NA ->
           (exists e, In e top /\ cell_eqb c (fst e) = true)
           \/ (forall e, In e top -> (occurrences c s <= snd e)%nat))
  end.
Proof.
  unfold top_countries, bind, df_getitem, getitem, ret.
  destruct (get_column "Country" (columns (df w))) as [s|]; [|reflexivity].
  pose proof (value_counts_sorted s) as Hsorted.
  eexists. split; [reflexivity|]. split; [apply firstn_le_length|]. split.
  - intros k n Hin. apply In_firstn in Hin.
    destruct (value_counts_entry s k n Hin) as (H1 & _ & H2 & _). now split.
  - intros c Hin Hc.
    destruct (value_counts_covers s c Hin Hc) as (e & He & Hce).
    rewrite <- (firstn_skipn 10 (value_counts s)) in He.
    apply in_app_or in He as [He|He].
    + left. now exists e.
    + right. intros e' He'.
      pose proof (StronglySorted_split _ 10 _ Hsorted e' e He' He) as Hle.
      cbv beta in Hle.
      apply In_skipn in He. destruct e as [k n]. 
      destruct (value_counts_entry s k n He) as (_ & _ & Hn & _).
      rewrite (occurrences_eqb c k s Hce). simpl in *. lia.
Qed.

(** ** Labels in order *)

Lemma cell_leb_total a b : cell_leb a b = false -> cell_leb b a = true.
Proof.
  destruct a as [|x|s], b as [|y|t]; simpl; try discriminate; try reflexivity.
  - apply d_leb_total.
  - intros H. destruct (String.leb_total s t) as [H'|H']; congruence.
Qed.

Lemma num_lt_trans a b c : num_lt a b -> num_lt b c -> num_lt a c.
Proof.
  destruct a, b, c; simpl; try tauto. apply d_ltb_trans.
Qed.

Lemma sorted_num_keys {A} (l : list (cell * A)) :
  distinct_keys l ->
  Forall (fun e => is_num (fst e) = true) l ->
  Sorted (fun a b => cell_leb (fst a) (fst b) = true) l ->
  StronglySorted num_lt (map fst l).
Proof.
  induction l as [|[a va] r IH]; simpl; intros Hd Hnum Hs; [constructor|].
  destruct Hd as [Hfa Hd].
  inversion Hnum as [|? ? Ha Hnum']; subst.
  inversion Hs as [|? ? Hs' Hhd]; subst.
  specialize (IH Hd Hnum' Hs').
  constructor; [assumption|].
  destruct r as [|[b vb] r']; [constructor|].
  inversion Hhd as [|? ? Hab]; subst. simpl in *.
  inversion Hfa as [|? ? Hne _]; subst.
  inversion Hnum' as [|? ? Hb _]; subst. simpl in *.
  destruct a as [|x|s]; try discriminate.
  destruct b as [|y|t]; try discriminate.
  simpl in *.
  assert (Hxy : d_ltb x y = true) by now apply d_leb_ltb.
  inversion IH as [|? ? _ Hall]; subst.
  constructor; [exact Hxy|].
  apply Forall_forall. intros c Hc. rewrite Forall_forall in Hall.
  apply (num_lt_trans (Num x) (Num y) c); [exact Hxy|now apply Hall].
Qed.



Lemma value_counts_keys_numeric s :
  numeric_column s = true ->
  Forall (fun e => is_num (fst e) = true) (value_counts s).
Proof.
  intros Hn. apply Forall_forall. intros [k n] Hin.
  destruct (value_counts_entry s k n Hin) as (Hk & Hks & _).
  unfold numeric_column in Hn. rewrite forallb_forall in Hn.
  specialize (Hn k Hks). destruct k; simpl; congruence.
Qed.

Lemma Forall_perm_sorted {A} (P : A -> Prop) leb (l : list A) :
  Forall P l -> Forall P (sort_by leb l).
Proof.
  intros H. apply (Permutation_Forall (sort_by_perm leb l) H).
Qed.

Lemma key_leb_sorted l :
  Sorted (fun a b : cell * nat => cell_leb (fst a) (fst b) = true)
         (sort_by key_leb l).
Proof.
  apply (sort_by_sorted key_leb). intros a b. apply cell_leb_total.
Qed.

(** With numbers only, the counts per label come out in the strict
    order of the labels. *)
Lemma sort_index_numeric s :
  numeric_column s = true ->
  exists l,
    sort_index (value_counts s) = Ok l /\
    Permutation (value_counts s) l /\
    StronglySorted num_lt (map fst l) /\
    (forall k n, In (k, n) l -> n = occurrences k s).
Proof.
  intros Hn. unfold sort_index.
  pose proof (value_counts_distinct s) as Hd.
  pose proof (value_counts_keys_numeric s Hn) as Hnum.
  assert (Hcmp : comparable (map fst (value_counts s)) = true).
  { unfold comparable. apply orb_true_iff. left.
    apply forallb_forall. intros k Hk.
    apply in_map_iff in Hk as (e & <- & He).
    rewrite Forall_forall in Hnum. specialize (Hnum e He).
    now destruct (fst e). }
  rewrite Hcmp. eexists. split; [reflexivity|].
  pose proof (sort_by_perm key_leb (value_counts s)) as HP.
  split; [exact HP|]. split.
  - apply sorted_num_keys.
    + now apply (distinct_keys_perm _ _ HP).
    + now apply Forall_perm_sorted.
    + apply key_leb_sorted.
  - intros k n Hin. apply (Permutation_in _ (Permutation_sym HP)) in Hin.
    now destruct (value_counts_entry s k n Hin) as (_ & _ & H & _).
Qed.

(** X6: the chart of incidents per year.  When the [Year] column holds
    no text, the cell returns the counts of [value_counts] in the order
    of the years, each year once and strictly before the next.  A
    column that mixes numbers and text raises [TypeError], a table
    without the column [KeyError]. *)
Theorem incidents_per_year_spec (w : world) :
  match get_column "Year" (columns (df w)) with
  | None => incidents_per_year w = (Raise (KeyError ["Year"]), w)
  | Some s =>
      (numeric_column s = true ->
       exists l,
         incidents_per_year w = (Ok l, w) /\
         Permutation (value_counts s) l /\
         StronglySorted num_lt (map fst l) /\
         (forall k n, In (k, n) l -> n = occurrences k s)) /\
      (existsb is_num s = true -> existsb is_str s = true ->
       incidents_per_year w = (Raise TypeError, w))
  end.
Proof.
  unfold incidents_per_year, bind, df_getitem, getitem, lift, sort_index.
  destruct (get_column "Year" (columns (df w))) as [s|]; [|reflexivity].
  split.
  - intros Hn. destruct (sort_index_numeric s Hn) as (l & Hl & H).
    unfold sort_index in Hl. rewrite Hl. now exists l.
  - intros Hnum Hstr.
    replace (comparable (map fst (value_counts s))) with false; [reflexivity|].
    symmetry. unfold comparable. apply orb_false_iff.
    apply existsb_exists in Hnum as (c1 & Hc1 & Hn1).
    apply existsb_exists in Hstr as (c2 & Hc2 & Hs2).
    assert (H1 : c1 <> NA) by (intros ->; discriminate).
    assert (H2 : c2 <> NA) by (intros ->; discriminate).
    destruct (value_counts_covers s c1 Hc1 H1) as (e1 & He1 & Heq1).
    destruct (value_counts_covers s c2 Hc2 H2) as (e2 & He2 & Heq2).
    split.
    + destruct (forallb _ (map fst (value_counts s))) eqn:E; [|reflexivity].
      rewrite forallb_forall in E.
      specialize (E (fst e2) (in_map fst _ _ He2)).
      destruct c2, (fst e2); simpl in *; discriminate.
    + destruct (forallb (fun c => negb (is_num c)) _) eqn:E; [|reflexivity].
      rewrite forallb_forall in E.
      specialize (E (fst e1) (in_map fst _ _ He1)).
      destruct c1, (fst e1); simpl in *; discriminate.
Qed.

Lemma incidents_per_year_spec_witness :
  exists l,
    incidents_per_year incident_world = (Ok l, incident_world) /\
    Permutation (value_counts incident_years) l /\
    StronglySorted num_lt (map fst l).
Proof.
  pose proof (incidents_per_year_spec incident_world) as H.
  cbn [incident_world df incident_df columns get_column String.eqb
       Ascii.eqb Bool.eqb] in H.
  destruct (proj1 H eq_refl) as (l & H1 & H2 & H3 & _).
  exists l. auto.
Defined.

(** ** Groups and their means *)








(** ** Missing cells, column by column *)

Lemma isnull_sum_filled_le v s :
  (isnull_sum (fillna_scalar v s) <= isnull_sum s)%nat.
Proof.
  destruct v as [m|]; [|apply Nat.le_refl].
  rewrite isnull_sum_filled. lia.
Qed.

(** X9: the missing-value report after cleaning.  The report lists the
    same columns in the same order as before, no column has more
    missing cells than it had, and a column outside the three numeric
    ones has exactly as many. *)
Theorem isnull_report_after_clean (w : world) :
  wf_df (df w) = true ->
  let before := isnull_sum_df (df w) in
  let after := isnull_sum_df (df (snd (clean w))) in
  map fst after = map fst before /\
  Forall2 (fun a b => (snd a <= snd b)%nat
                      /\ (~ In (fst b) numeric_cols -> snd a = snd b))
          after before.
Proof.
  intros Hwf. cbv zeta. unfold clean.
  destruct (fst (impute numeric_cols w)) as [u|e] eqn:Hres.
  - pose proof (impute_Ok_inv _ _ _ Hres) as Hnum.
    rewrite (impute_ok _ _ Hwf Hnum NoDup_numeric_cols).
    cbn [snd df]. unfold isnull_sum_df. cbn [columns].
    generalize (columns (df w)). intros cols. split.
    + rewrite !map_map. apply map_ext. intros kv. simpl.
      apply impute_entry_fst.
    + induction cols as [|kv cols IH]; simpl; constructor; [|exact IH].
      simpl. unfold impute_entry.
      destruct (existsb (String.eqb (fst kv)) numeric_cols) eqn:E; simpl.
      * split; [apply isnull_sum_filled_le|].
        intros Hout. apply existsb_eqb_In in E. contradiction.
      * split; [apply Nat.le_refl|reflexivity].
  - rewrite (impute_raise _ _ _ Hres). split; [reflexivity|].
    unfold isnull_sum_df.
    induction (columns (df w)) as [|kv cols IH]; simpl; constructor; auto.
Qed.

Lemma isnull_report_after_clean_witness :
  let before := isnull_sum_df (df incident_world) in
  let after := isnull_sum_df (df (snd (clean incident_world))) in
  map fst after = map fst before /\
  Forall2 (fun a b => (snd a <= snd b)%nat
                      /\ (~ In (fst b) numeric_cols -> snd a = snd b))
          after before.
Proof.
  apply (isnull_report_after_clean incident_world). reflexivity.
Defined.

(** ** The cells in sequence *)

Lemma loop_report_Ok_inv cols d :
  fst (loop_report cols d) = Ok tt -> numeric_present cols d = true.
Proof.
  induction cols as [|c rest IH]; [reflexivity|].
  cbn [loop_report]. unfold getitem, numeric_present. cbn [forallb].
  destruct (get_column c (columns d)) as [s|]; cbn [rbind fst];
    [|discriminate].
  destruct (outlier_count s) as [n|e] eqn:Hc; cbn [fst]; [|discriminate].
  intros H. rewrite (outlier_count_Ok_inv _ _ Hc). now apply IH.
Qed.

(** X13: the outlier cell completes exactly when the three numeric
    columns exist and hold no text.  Hence, when the cleaning cell
    completes, the outlier cell run after it completes as well, prints
    one line per numeric column and leaves the cleaned table. *)
Theorem clean_then_outliers (w : world) :
  wf_df (df w) = true ->
  (fst (outlier_loop w) = Ok tt
   <-> numeric_present numeric_cols (df w) = true) /\
  (fst (clean w) = Ok tt ->
   exists lines,
     (clean ;;; outlier_loop) w
     = (Ok tt, mkWorld (df (snd (clean w))) (stdout w ++ lines)) /\
     length lines = 3%nat).
Proof.
  intros Hwf. split.
  - split.
    + unfold outlier_loop. rewrite outlier_loop_run. cbn [fst].
      apply loop_report_Ok_inv.
    + intros Hnum. unfold outlier_loop.
      now rewrite outlier_loop_run, (loop_report_numeric _ _ Hnum).
  - intros Hres. unfold clean in *.
    pose proof (impute_Ok_inv _ _ _ Hres) as Hnum.
    unfold bind. rewrite (impute_ok _ _ Hwf Hnum NoDup_numeric_cols).
    cbn [snd].
    unfold outlier_loop. rewrite outlier_loop_run. cbn [df stdout].
    rewrite loop_report_numeric by (now apply numeric_present_impute).
    cbn [fst snd]. eexists. split; [reflexivity|]. reflexivity.
Qed.

Lemma clean_then_outliers_witness :
  (fst (outlier_loop sample_world) = Ok tt
   <-> numeric_present numeric_cols (df sample_world) = true) /\
  exists lines,
    (clean ;;; outlier_loop) sample_world
    = (Ok tt, mkWorld (df (snd (clean sample_world)))
                      (stdout sample_world ++ lines)) /\
    length lines = 3%nat.
Proof.
  destruct (clean_then_outliers sample_world eq_refl) as [H1 H2].
  split; [exact H1|]. apply H2. reflexivity.
Defined.

(** X14: the bars of the attack-type chart stand for distinct attack
    types and add up to the number of rows whose attack type is not
    missing; without the column the cell raises [KeyError]. *)
Theorem attack_type_counts_total (w : world) :
  wf_df (df w) = true ->
  match get_column "Attack Type" (columns (df w)) with
  | None => attack_type_counts w = (Raise (KeyError ["Attack Type"]), w)
  | Some s =>
      exists bars,
        attack_type_counts w = (Ok bars, w) /\
        distinct_keys bars /\
        (total_count bars + isnull_sum s = index (df w))%nat
  end.
Proof.
  intros Hwf. unfold attack_type_counts, bind, df_getitem, getitem, ret.
  destruct (get_column "Attack Type" (columns (df w))) as [s|] eqn:Hg;
    [|reflexivity].
  eexists. split; [reflexivity|]. split; [apply value_counts_distinct|].
  rewrite value_counts_total.
  apply (wf_df_length _ ("Attack Type", s) Hwf). now apply get_column_In.
Qed.

Lemma attack_type_counts_total_witness :
  exists bars,
    attack_type_counts incident_world = (Ok bars, incident_world) /\
    distinct_keys bars /\
    (total_count bars + 1 = 6)%nat.
Proof.
  exact (attack_type_counts_total incident_world eq_refl).
Defined.

(** ** A first look at the table *)

Lemma nodupb_map_fst (f : string * Series -> string * Series) cols :
  (forall kv, fst (f kv) = fst kv) ->
  map fst (map f cols) = map fst cols.
Proof. intros H. rewrite map_map. now apply map_ext. Qed.

(** X15: [head] keeps the labels and the table invariant, shows the
    first five cells of every column, has five rows or as many as the
    table when that is fewer, and is the table itself when the table
    has at most five rows. *)
Theorem head_spec (d : DataFrame) :
  wf_df d = true ->
  wf_df (head d) = true /\
  shape (head d) = (Nat.min 5 (index d), snd (shape d)) /\
  map fst (columns (head d)) = map fst (columns d) /\
  (forall k s, get_column k (columns d) = Some s ->
               get_column k (columns (head d)) = Some (firstn 5 s)) /\
  ((index d <= 5)%nat -> head d = d).
Proof.
  intros Hwf. pose proof Hwf as Hwf'.
  unfold wf_df in Hwf'. apply andb_prop in Hwf' as [Hnd Hlen].
  rewrite forallb_forall in Hlen.
  assert (Hnames : map fst (columns (head d)) = map fst (columns d)).
  { unfold head. cbn [columns]. now apply nodupb_map_fst. }
  split; [|split; [|split; [|split]]].
  - unfold wf_df. rewrite Hnames, Hnd. cbn [andb].
    unfold head. cbn [columns index]. rewrite forallb_map_fun.
    apply forallb_forall. intros kv Hin. cbn [snd].
    specialize (Hlen kv Hin). apply Nat.eqb_eq in Hlen.
    apply Nat.eqb_eq. rewrite length_firstn. lia.
  - unfold shape, head. cbn [index columns snd]. now rewrite length_map.
  - exact Hnames.
  - intros k s Hg. unfold head. cbn [columns].
    rewrite (get_column_map (fun kv => (fst kv, firstn 5 (snd kv))) k)
      by reflexivity.
    now rewrite Hg.
  - intros Hsmall. unfold head. destruct d as [n cols]. cbn [index columns] in *.
    f_equal; [lia|]. rewrite <- (map_id cols) at 2.
    apply map_ext_in. intros [k s] Hin. cbn [fst snd]. f_equal.
    apply firstn_all2. specialize (Hlen _ Hin). apply Nat.eqb_eq in Hlen.
    cbn [snd] in Hlen. lia.
Qed.

Lemma head_spec_witness :
  wf_df (head incident_df) = true /\
  shape (head incident_df) = (5%nat, 6%nat) /\
  head sample_df = sample_df.
Proof.
  destruct (head_spec incident_df eq_refl) as (H1 & H2 & _).
  destruct (head_spec sample_df eq_refl) as (_ & _ & _ & _ & H3).
  split; [exact H1|]. split; [exact H2|]. apply H3. simpl. lia.
Defined.
(** ** Loading and cleaning: what can go wrong *)

Lemma field_position_None name header :
  field_position name header = None
  <-> existsb (String.eqb name) header = false.
Proof.
  induction header as [|h rest IH]; simpl; [tauto|].
  destruct (String.eqb name h); simpl.
  - split; discriminate.
  - destruct (field_position name rest); simpl.
    + split; [discriminate|]. intros H. apply IH in H. discriminate.
    + split; [|reflexivity]. intros _. now apply IH.
Qed.

Lemma has_column_loaded infer_column header records k :
  has_column k (mkDataFrame (length records)
                  (parse_columns infer_column 0 header records))
  = existsb (String.eqb k) header.
Proof.
  unfold has_column. cbn [columns]. rewrite get_column_parse.
  destruct (field_position k header) as [j|] eqn:E; cbn [option_map].
  - destruct (existsb (String.eqb k) header) eqn:Ex; [reflexivity|].
    apply field_position_None in Ex. congruence.
  - symmetry. now apply field_position_None.
Qed.

(** X17: how loading and cleaning fail.  No file gives
    [FileNotFoundError], an empty file [EmptyDataError]; a file whose
    records fit the header but whose header lacks some of the three
    numeric columns gives [KeyError] with exactly the lacking names;
    with all three in the header the only failure left is [TypeError],
    for text in one of them. *)
Theorem load_and_clean_errors
  (infer_column : list (option string) -> Series) (fs : filesystem) :
  match fs csv_path with
  | None => load_and_clean infer_column fs = Raise FileNotFoundError
  | Some [] => load_and_clean infer_column fs = Raise EmptyDataError
  | Some (header :: records) =>
      existsb (fun r => length header <? length r)%nat records = false ->
      match filter (fun k => negb (existsb (String.eqb k) header))
                   numeric_cols with
      | k :: ks =>
          load_and_clean infer_column fs = Raise (KeyError (k :: ks))
      | [] =>
          (exists w, load_and_clean infer_column fs = Ok w)
          \/ load_and_clean infer_column fs = Raise TypeError
      end
  end.
Proof.
  unfold load_and_clean, read_csv.
  destruct (fs csv_path) as [[|header records]|]; try reflexivity.
  intros Hfit. rewrite Hfit.
  set (d := mkDataFrame (length records)
              (parse_columns infer_column 0 header records)).
  assert (Hmiss : filter (fun k => negb (has_column k d)) numeric_cols
                  = filter (fun k => negb (existsb (String.eqb k) header))
                           numeric_cols).
  { apply filter_ext. intros k. unfold d. now rewrite has_column_loaded. }
  rewrite <- Hmiss. unfold clean.
  destruct (filter _ numeric_cols) as [|k ks] eqn:E.
  - destruct (numeric_present numeric_cols d) eqn:Hnum.
    + left. pose proof (impute_completes numeric_cols (mkWorld d []) Hnum) as H.
      destruct (impute numeric_cols (mkWorld d [])) as [r w'].
      cbn [fst] in H. subst r. now exists w'.
    + right. now rewrite (impute_text numeric_cols (mkWorld d []) E Hnum).
  - now rewrite (impute_absent numeric_cols (mkWorld d []) k ks E).
Qed.

Lemma load_and_clean_errors_witness :
  load_and_clean sample_infer
    (fun path =>
       if String.eqb path csv_path
       then Some [ ["Year"; "Number of Affected Users"]; ["2019"; "7"] ]
       else None)
  = Raise (KeyError [ "Financial Loss (in Million $)";
                      "Incident Resolution Time (in Hours)" ]).
Proof.
  exact (load_and_clean_errors sample_infer
           (fun path =>
              if String.eqb path csv_path
              then Some [ ["Year"; "Number of Affected Users"]; ["2019"; "7"] ]
              else None) eq_refl).
Defined.

(** ** Cleaning and the frequency charts *)

Lemma getitem_after_impute keys w c :
  ~ In c keys ->
  getitem c (df (snd (impute keys w))) = getitem c (df w).
Proof.
  intros Hout.
  destruct (fst (impute keys w)) as [u|e] eqn:Hres.
  - revert Hres.
    unfold impute, bind, df_getitem_list, getitem_list, lift, df_setitem_list.
    destruct (select keys (columns (df w))) as [r|] eqn:Hsel; cbn [fst snd];
      [|discriminate].
    destruct (median _) as [med|e'] eqn:Hmed; cbn [fst snd]; [|discriminate].
    intros _. unfold getitem. cbn [snd df]. rewrite setitem_list_unfold.
    cbn [columns].
    destruct (select_Some_inv _ _ _ Hsel) as [Hk _].
    assert (Hgen : forall l acc,
      (forall kv, In kv l -> fst kv <> c) ->
      get_column c
        (fold_left
           (fun a (kv : string * (string * Series)) =>
              set_column (fst kv) (reindex (index (df w)) (snd (snd kv))) a)
           l acc)
      = get_column c acc).
    { induction l as [|kv l IH]; intros acc Hl; [reflexivity|].
      cbn [fold_left]. rewrite IH by (intros kv' H'; apply Hl; now right).
      apply get_set_other. intros E. apply (Hl kv); [now left|now symmetry]. }
    rewrite Hgen; [reflexivity|].
    intros [k v] Hkv E. apply in_combine_l in Hkv. apply Hout.
    cbn [fst] in E. now rewrite <- E.
  - now rewrite (impute_raise _ _ _ Hres).
Qed.

(** X18: cleaning does not change the frequency charts.  Computed after
    the cleaning cell, the tables of attack types, of incidents per year
    and of the top countries are what they are before it. *)
Theorem frequency_tables_after_clean (w : world) :
  let w' := snd (clean w) in
  fst (attack_type_counts w') = fst (attack_type_counts w) /\
  fst (incidents_per_year w') = fst (incidents_per_year w) /\
  fst (top_countries w') = fst (top_countries w).
Proof.
  cbv zeta. unfold clean.
  unfold attack_type_counts, incidents_per_year, top_countries, bind,
    df_getitem.
  rewrite !(getitem_after_impute numeric_cols w);
    try (intros [H|[H|[H|[]]]]; discriminate).
  repeat split.
  - now destruct (getitem "Attack Type" (df w)).
  - destruct (getitem "Year" (df w)); [|reflexivity].
    unfold lift. reflexivity.
  - now destruct (getitem "Country" (df w)).
Qed.

Lemma frequency_tables_after_clean_witness :
  let w' := snd (clean incident_world) in
  fst (attack_type_counts w') = fst (attack_type_counts incident_world) /\
  fst (incidents_per_year w') = fst (incidents_per_year incident_world) /\
  fst (top_countries w') = fst (top_countries incident_world).
Proof.
  apply (frequency_tables_after_clean incident_world).
Defined.

